(** * libstore: the IndexedDB wrapper of the library manager

    A shallow embedding of [AdvancedLibraryDB] (the "advanced-db" module):
    the four object stores, the book, member, issue and settings
    operations, the overdue sweep and export/import, followed by the
    properties of the issue/return workflow.

    Modelling conventions.
    - An object store with [keyPath: 'id'] is a finite map from the key to
      the record; [add] and [put] file a record under its own [id] field.
      [getAll] lists the values in the map's canonical key order, which
      stands for IndexedDB's key order; no statement below depends on it.
    - A [Date] is its millisecond time stamp, a JS number an integer.
    - [new Date()], [crypto.randomUUID()] and the member code built from
      [Date.now()] and [Math.random()] are queries to the environment: the
      n-th query of a run is answered by an oracle of the world.
    - A promise is [Resolved], [Rejected] or never settled ([Unsettled]).
    - The database is open and storage requests do not fail for reasons
      outside the data (quota, aborted transactions). *)

From stdpp Require Import gmap strings list fin_maps pretty.
From Stdlib Require Import ZArith Lia.

Local Open Scope Z_scope.

(** ** Core data types *)

Inductive Status := issued | returned | overdue.
Inductive Theme := light | dark.

#[global] Instance Status_eq_dec : EqDecision Status.
Proof. solve_decision. Defined.

Module Book.
Record t := mk {
  id : string;
  title : string;
  author : string;
  category : string;
  publicationYear : Z;
  isbn : option string;
  totalCopies : Z;
  availableCopies : Z;
  createdAt : Z;
  updatedAt : Z
}.

(** [Omit<Book, 'id' | 'createdAt' | 'updatedAt'>] *)
Record data := mkData {
  d_title : string;
  d_author : string;
  d_category : string;
  d_publicationYear : Z;
  d_isbn : option string;
  d_totalCopies : Z;
  d_availableCopies : Z
}.

(** [Partial<Omit<Book, 'id' | 'createdAt'>>]; a supplied [updatedAt] is
    always overwritten by [updateBook] and is left out. *)
Record updates := mkUpdates {
  u_title : option string;
  u_author : option string;
  u_category : option string;
  u_publicationYear : option Z;
  u_isbn : option (option string);
  u_totalCopies : option Z;
  u_availableCopies : option Z
}.

(** [{...existingBook, ...updates, updatedAt: now}] *)
Definition spread (b : t) (u : updates) (now : Z) : t :=
  mk (id b)
     (default (title b) (u_title u))
     (default (author b) (u_author u))
     (default (category b) (u_category u))
     (default (publicationYear b) (u_publicationYear u))
     (default (isbn b) (u_isbn u))
     (default (totalCopies b) (u_totalCopies u))
     (default (availableCopies b) (u_availableCopies u))
     (createdAt b)
     now.

(** The fields an export document carries over an import. *)
Definition to_data (b : t) : data :=
  mkData (title b) (author b) (category b) (publicationYear b) (isbn b)
         (totalCopies b) (availableCopies b).
End Book.

Module Member.
Record t := mk {
  id : string;
  memberId : string;
  name : string;
  phone : string;
  email : string;
  address : option string;
  createdAt : Z;
  updatedAt : Z
}.

(** [Omit<Member, 'id' | 'memberId' | 'createdAt' | 'updatedAt'>] *)
Record data := mkData {
  d_name : string;
  d_phone : string;
  d_email : string;
  d_address : option string
}.

(** [Partial<Omit<Member, 'id' | 'memberId' | 'createdAt'>>] *)
Record updates := mkUpdates {
  u_name : option string;
  u_phone : option string;
  u_email : option string;
  u_address : option (option string)
}.

Definition spread (m : t) (u : updates) (now : Z) : t :=
  mk (id m) (memberId m)
     (default (name m) (u_name u))
     (default (phone m) (u_phone u))
     (default (email m) (u_email u))
     (default (address m) (u_address u))
     (createdAt m)
     now.

Definition to_data (m : t) : data :=
  mkData (name m) (phone m) (email m) (address m).
End Member.

Module Issue.
Record t := mk {
  id : string;
  bookId : string;
  memberId : string;
  bookTitle : string;
  memberName : string;
  issueDate : Z;
  dueDate : Z;
  returnDate : option Z;
  status : Status;
  createdAt : Z;
  updatedAt : Z
}.

(** The argument of [issueBook]. *)
Record data := mkData {
  d_bookId : string;
  d_memberId : string;
  d_dueDate : option Z
}.

(** [Partial<Issue>]; a supplied [updatedAt] is overwritten. *)
Record updates := mkUpdates {
  u_id : option string;
  u_bookId : option string;
  u_memberId : option string;
  u_bookTitle : option string;
  u_memberName : option string;
  u_issueDate : option Z;
  u_dueDate : option Z;
  u_returnDate : option (option Z);
  u_status : option Status;
  u_createdAt : option Z
}.

Definition spread (i : t) (u : updates) (now : Z) : t :=
  mk (default (id i) (u_id u))
     (default (bookId i) (u_bookId u))
     (default (memberId i) (u_memberId u))
     (default (bookTitle i) (u_bookTitle u))
     (default (memberName i) (u_memberName u))
     (default (issueDate i) (u_issueDate u))
     (default (dueDate i) (u_dueDate u))
     (default (returnDate i) (u_returnDate u))
     (default (status i) (u_status u))
     (default (createdAt i) (u_createdAt u))
     now.

(** [{ status: 'overdue' }] *)
Definition mark_overdue : updates :=
  mkUpdates None None None None None None None None (Some overdue) None.

(** [{...existingIssue, returnDate, status, updatedAt}] of [returnBook]. *)
Definition close (i : t) (ret : Z) (st : Status) (now : Z) : t :=
  mk (id i) (bookId i) (memberId i) (bookTitle i) (memberName i)
     (issueDate i) (dueDate i) (Some ret) st (createdAt i) now.
End Issue.

Module LibrarySettings.
Record t := mk {
  id : string;
  defaultLoanDuration : Z;
  theme : Theme;
  autoNotifications : bool;
  finePerDay : Z;
  maxBooksPerMember : Z;
  updatedAt : Z
}.

(** [Partial<LibrarySettings>]; [id] and [updatedAt] are overwritten by
    [saveSettings] and are left out. *)
Record updates := mkUpdates {
  u_defaultLoanDuration : option Z;
  u_theme : option Theme;
  u_autoNotifications : option bool;
  u_finePerDay : option Z;
  u_maxBooksPerMember : option Z
}.

Definition spread (s : t) (u : updates) (now : Z) : t :=
  mk "default"
     (default (defaultLoanDuration s) (u_defaultLoanDuration u))
     (default (theme s) (u_theme u))
     (default (autoNotifications s) (u_autoNotifications u))
     (default (finePerDay s) (u_finePerDay u))
     (default (maxBooksPerMember s) (u_maxBooksPerMember u))
     now.

(** A whole settings record passed where a partial one is expected. *)
Definition as_updates (s : t) : updates :=
  mkUpdates (Some (defaultLoanDuration s)) (Some (theme s))
            (Some (autoNotifications s)) (Some (finePerDay s))
            (Some (maxBooksPerMember s)).

(** The initial value of the [settings] field of the class. *)
Definition initial (now : Z) : t := mk "default" 14 light false 1 3 now.
End LibrarySettings.

(** The messages of the [Error]s the wrapper throws or rejects with. *)
Inductive Error :=
| BookNotFound            (* 'Book not found' *)
| MemberNotFound          (* 'Member not found' *)
| NoCopiesAvailable       (* 'No copies available for this book' *)
| MemberLimitReached (limit : Z)
                          (* 'Member has reached maximum book limit (n)' *)
| FailedToIssueBook       (* 'Failed to issue book' *)
| IssueRecordNotFound     (* 'Issue record not found' *)
| BookAlreadyReturned     (* 'Book already returned' *)
| IssueNotFound           (* 'Issue not found' *)
| EmailAlreadyExists      (* 'Email already exists' *)
| PhoneAlreadyExists      (* 'Phone number already exists' *)
| FailedToAddBook         (* 'Failed to add book' *)
| FailedToAddMember       (* 'Failed to add member' *)
| TypeError.              (* a property read on [null] *)

(** ** The world: stores, instance state and environment *)

Record Env := mkEnv {
  uuid : nat -> string;        (* crypto.randomUUID() *)
  clock : nat -> Z;            (* new Date() *)
  memberCode : nat -> string   (* generateMemberId() *)
}.

Record World := mkWorld {
  books : gmap string Book.t;
  members : gmap string Member.t;
  issues : gmap string Issue.t;
  settingsStore : option LibrarySettings.t;  (* the record under 'default' *)
  settings : LibrarySettings.t;              (* this.settings *)
  env : Env;
  queries : nat
}.

Definition set_books (f : gmap string Book.t -> gmap string Book.t) (w : World) : World :=
  mkWorld (f (books w)) (members w) (issues w) (settingsStore w) (settings w) (env w) (queries w).
Definition set_members (f : gmap string Member.t -> gmap string Member.t) (w : World) : World :=
  mkWorld (books w) (f (members w)) (issues w) (settingsStore w) (settings w) (env w) (queries w).
Definition set_issues (f : gmap string Issue.t -> gmap string Issue.t) (w : World) : World :=
  mkWorld (books w) (members w) (f (issues w)) (settingsStore w) (settings w) (env w) (queries w).
Definition set_settings (s : LibrarySettings.t) (w : World) : World :=
  mkWorld (books w) (members w) (issues w) (Some s) s (env w) (queries w).
Definition tick (w : World) : World :=
  mkWorld (books w) (members w) (issues w) (settingsStore w) (settings w) (env w) (S (queries w)).

(** What persists of a world: the four stores and the cached settings. *)
Definition contents (w : World) :=
  (books w, members w, issues w, settingsStore w, settings w).

(** ** Promises *)

Inductive Outcome (A : Type) :=
| Resolved (a : A)
| Rejected (e : Error)
| Unsettled.
Arguments Resolved {A} a.
Arguments Rejected {A} e.
Arguments Unsettled {A}.

Definition Async (A : Type) : Type := World -> Outcome A * World.

Definition ret {A} (a : A) : Async A := fun w => (Resolved a, w).
Definition throw {A} (e : Error) : Async A := fun w => (Rejected e, w).

Definition bind {A B} (m : Async A) (k : A -> Async B) : Async B := fun w =>
  match m w with
  | (Resolved a, w') => k a w'
  | (Rejected e, w') => (Rejected e, w')
  | (Unsettled, w') => (Unsettled, w')
  end.

Declare Scope async_scope.
Delimit Scope async_scope with async.
Notation "'let*' x ':=' m 'in' k" := (bind m (fun x => k))
  (at level 10, x name, m at level 100, k at level 200) : async_scope.
Notation "m ';;' k" := (bind m (fun _ => k))
  (at level 100, k at level 200, right associativity) : async_scope.
Local Open Scope async_scope.

(** [try { await m } catch (error) { h }] *)
Definition try_catch {A} (m : Async A) (h : Error -> Async A) : Async A := fun w =>
  match m w with
  | (Rejected e, w') => h e w'
  | r => r
  end.

(** [request.onsuccess = async () => { await m; resolve(v) }]: a rejection
    of [m] is thrown inside the event handler, whose own promise nobody
    holds, so the enclosing promise is never settled. *)
Definition in_handler {A} (m : Async A) : Async A := fun w =>
  match m w with
  | (Rejected _, w') => (Unsettled, w')
  | r => r
  end.

(** [for (const x of l) { await f(x) }] *)
Fixpoint for_each {A} (l : list A) (f : A -> Async unit) : Async unit :=
  match l with
  | [] => ret tt
  | x :: l' => f x ;; for_each l' f
  end.

(** ** Environment queries *)

Definition newDate : Async Z :=
  fun w => (Resolved (clock (env w) (queries w)), tick w).
Definition generateId : Async string :=
  fun w => (Resolved (uuid (env w) (queries w)), tick w).
Definition generateMemberId : Async string :=
  fun w => (Resolved (memberCode (env w) (queries w)), tick w).

(** The answer [new Date()] would get in [w]. *)
Definition now_of (w : World) : Z := clock (env w) (queries w).

(** ** Book operations *)

Definition addBook (bookData : Book.data) : Async Book.t :=
  let* id := generateId in
  let* createdAt := newDate in
  let* updatedAt := newDate in
  let book :=
    Book.mk id (Book.d_title bookData) (Book.d_author bookData)
      (Book.d_category bookData) (Book.d_publicationYear bookData)
      (Book.d_isbn bookData) (Book.d_totalCopies bookData)
      (Book.d_totalCopies bookData) (* Initially all copies are available *)
      createdAt updatedAt in
  fun w =>
    match books w !! Book.id book with
    | Some _ => (Rejected FailedToAddBook, w)
    | None => (Resolved book, set_books (insert (Book.id book) book) w)
    end.

Definition getAllBooks : Async (list Book.t) :=
  fun w => (Resolved (map_to_list (books w)).*2, w).

Definition getBookById (id : string) : Async (option Book.t) :=
  fun w => (Resolved (books w !! id), w).

Definition updateBook (id : string) (updates : Book.updates) : Async Book.t :=
  let* existingBook := getBookById id in
  match existingBook with
  | None => throw BookNotFound
  | Some existingBook =>
      let* now := newDate in
      let updatedBook := Book.spread existingBook updates now in
      fun w => (Resolved updatedBook,
                set_books (insert (Book.id updatedBook) updatedBook) w)
  end.

Definition deleteBook (id : string) : Async unit :=
  fun w => (Resolved tt, set_books (delete id) w).

Definition getAvailableBooks : Async (list Book.t) :=
  let* allBooks := getAllBooks in
  ret (filter (fun book => 0 < Book.availableCopies book) allBooks).

Definition updateBookAvailability (bookId : string) (change : Z) : Async unit :=
  let* book := getBookById bookId in
  match book with
  | None => throw BookNotFound
  | Some book =>
      let newAvailableCopies :=
        Z.max 0 (Z.min (Book.totalCopies book) (Book.availableCopies book + change)) in
      updateBook bookId
        (Book.mkUpdates None None None None None None (Some newAvailableCopies)) ;;
      ret tt
  end.

(** ** Member operations *)

Definition getAllMembers : Async (list Member.t) :=
  fun w => (Resolved (map_to_list (members w)).*2, w).

Definition getMemberById (id : string) : Async (option Member.t) :=
  fun w => (Resolved (members w !! id), w).

(** [list.some(pred)] *)
Definition some {A} (pred : A -> bool) (l : list A) : bool := existsb pred l.

(** The [memberId] index of the member store is declared [unique]: [add]
    fails on a primary key or on a member code already stored. *)
Definition memberId_taken (code : string) (ms : gmap string Member.t) : bool :=
  some (fun m => bool_decide (Member.memberId m = code)) (map_to_list ms).*2.

Definition addMember (memberData : Member.data) : Async Member.t :=
  let* existingMembers := getAllMembers in
  let emailExists :=
    some (fun m => bool_decide (Member.email m = Member.d_email memberData)) existingMembers in
  let phoneExists :=
    some (fun m => bool_decide (Member.phone m = Member.d_phone memberData)) existingMembers in
  if emailExists then throw EmailAlreadyExists
  else if phoneExists then throw PhoneAlreadyExists
  else
    let* id := generateId in
    let* memberId := generateMemberId in
    let* createdAt := newDate in
    let* updatedAt := newDate in
    let member :=
      Member.mk id memberId (Member.d_name memberData) (Member.d_phone memberData)
        (Member.d_email memberData) (Member.d_address memberData) createdAt updatedAt in
    fun w =>
      match members w !! Member.id member with
      | Some _ => (Rejected FailedToAddMember, w)
      | None =>
          if memberId_taken (Member.memberId member) (members w)
          then (Rejected FailedToAddMember, w)
          else (Resolved member, set_members (insert (Member.id member) member) w)
      end.

Definition updateMember (id : string) (updates : Member.updates) : Async Member.t :=
  let* existingMember := getMemberById id in
  match existingMember with
  | None => throw MemberNotFound
  | Some existingMember =>
      let* now := newDate in
      let updatedMember := Member.spread existingMember updates now in
      fun w => (Resolved updatedMember,
                set_members (insert (Member.id updatedMember) updatedMember) w)
  end.

Definition deleteMember (id : string) : Async unit :=
  fun w => (Resolved tt, set_members (delete id) w).

(** ** Settings operations *)

Definition getSettings : Async (option LibrarySettings.t) :=
  fun w => (Resolved (settingsStore w), w).

Definition saveSettings (s : LibrarySettings.updates) : Async LibrarySettings.t :=
  let* now := newDate in
  fun w =>
    let updatedSettings := LibrarySettings.spread (settings w) s now in
    (Resolved updatedSettings, set_settings updatedSettings w).

(** [loadSettings], run when the database is opened; its errors are logged. *)
Definition loadSettings : Async unit :=
  try_catch
    (let* s := getSettings in
     match s with
     | Some s => fun w =>
         (Resolved tt,
          mkWorld (books w) (members w) (issues w) (settingsStore w) s (env w) (queries w))
     | None => fun w =>
         (saveSettings (LibrarySettings.as_updates (settings w)) ;; ret tt) w
     end)
    (fun _ => ret tt).

(** ** Issue operations *)

Definition getAllIssues : Async (list Issue.t) :=
  fun w => (Resolved (map_to_list (issues w)).*2, w).

(** [issue.memberId === memberId && issue.status === 'issued'] *)
Definition is_active (memberId : string) (issue : Issue.t) : Prop :=
  Issue.memberId issue = memberId /\ Issue.status issue = issued.

#[global] Instance is_active_dec memberId issue : Decision (is_active memberId issue).
Proof. unfold is_active. apply _. Defined.

Definition getMemberIssues (memberId : string) : Async (list Issue.t) :=
  let* allIssues := getAllIssues in
  ret (filter (is_active memberId) allIssues).

Definition getBookIssues (bookId : string) : Async (list Issue.t) :=
  let* allIssues := getAllIssues in
  ret (filter (fun issue => Issue.bookId issue = bookId) allIssues).

Definition ms_per_day : Z := 24 * 60 * 60 * 1000.

Definition issueBook (issueData : Issue.data) : Async Issue.t :=
  let* settings := getSettings in
  let* book := getBookById (Issue.d_bookId issueData) in
  let* member := getMemberById (Issue.d_memberId issueData) in
  match book with
  | None => throw BookNotFound
  | Some book =>
  match member with
  | None => throw MemberNotFound
  | Some member =>
  if Book.availableCopies book <=? 0 then throw NoCopiesAvailable
  else
    let* currentIssues := getMemberIssues (Issue.d_memberId issueData) in
    match settings with
    | None => throw TypeError
    | Some settings =>
    if LibrarySettings.maxBooksPerMember settings <=? Z.of_nat (length currentIssues)
    then throw (MemberLimitReached (LibrarySettings.maxBooksPerMember settings))
    else
      let* issueDate := newDate in
      let dueDate :=
        default (issueDate + LibrarySettings.defaultLoanDuration settings * 24 * 60 * 60 * 1000)
                (Issue.d_dueDate issueData) in
      let* id := generateId in
      let* createdAt := newDate in
      let* updatedAt := newDate in
      let issue :=
        Issue.mk id (Issue.d_bookId issueData) (Issue.d_memberId issueData)
          (Book.title book) (Member.name member) issueDate dueDate None issued
          createdAt updatedAt in
      (fun w =>
         match issues w !! Issue.id issue with
         | Some _ => (Rejected FailedToIssueBook, w)
         | None => (Resolved tt, set_issues (insert (Issue.id issue) issue) w)
         end) ;;
      in_handler (updateBookAvailability (Issue.d_bookId issueData) (-1)) ;;
      ret issue
    end
  end
  end.

Definition returnBook (issueId : string) : Async Issue.t :=
  fun w =>
    match issues w !! issueId with
    | None => (Rejected IssueRecordNotFound, w)
    | Some existingIssue =>
        if bool_decide (Issue.status existingIssue = returned)
        then (Rejected BookAlreadyReturned, w)
        else
          (let* returnDate := newDate in
           let isOverdue := Issue.dueDate existingIssue <? returnDate in
           let* now := newDate in
           let updatedIssue :=
             Issue.close existingIssue returnDate
               (if isOverdue then overdue else returned) now in
           (fun w => (Resolved tt,
                      set_issues (insert (Issue.id updatedIssue) updatedIssue) w)) ;;
           in_handler (updateBookAvailability (Issue.bookId existingIssue) 1) ;;
           ret updatedIssue) w
    end.

Definition updateIssue (id : string) (updates : Issue.updates) : Async Issue.t :=
  fun w =>
    match issues w !! id with
    | None => (Rejected IssueNotFound, w)
    | Some existingIssue =>
        (let* now := newDate in
         let updatedIssue := Issue.spread existingIssue updates now in
         fun w => (Resolved updatedIssue,
                   set_issues (insert (Issue.id updatedIssue) updatedIssue) w)) w
    end.

(** [issue.status === 'issued' && issue.dueDate < now] *)
Definition is_overdue (now : Z) (issue : Issue.t) : Prop :=
  Issue.status issue = issued /\ Issue.dueDate issue < now.

#[global] Instance is_overdue_dec now issue : Decision (is_overdue now issue).
Proof. unfold is_overdue. apply _. Defined.

Definition getOverdueBooks : Async (list Issue.t) :=
  let* allIssues := getAllIssues in
  let* now := newDate in
  ret (filter (is_overdue now) allIssues).

Definition updateOverdueStatus : Async unit :=
  let* allIssues := getAllIssues in
  let* now := newDate in
  let overdueIssues := filter (is_overdue now) allIssues in
  for_each overdueIssues
    (fun issue => updateIssue (Issue.id issue) Issue.mark_overdue ;; ret tt).

(** ** Export / import *)

Record Document := mkDocument {
  doc_books : option (list Book.t);
  doc_members : option (list Member.t);
  doc_issues : option (list Issue.t);
  doc_settings : option LibrarySettings.t
}.

Definition exportData : Async Document :=
  let* books := getAllBooks in
  let* members := getAllMembers in
  let* issues := getAllIssues in
  let* stored := getSettings in
  fun w =>
    (Resolved (mkDocument (Some books) (Some members) (Some issues)
                          (Some (default (settings w) stored))), w).

Definition clearAllData : Async unit :=
  fun w => (Resolved tt,
            mkWorld ∅ ∅ ∅ (settingsStore w) (settings w) (env w) (queries w)).

Definition importData (data : Document) : Async unit :=
  clearAllData ;;
  for_each (default [] (doc_books data))
    (fun book => addBook (Book.to_data book) ;; ret tt) ;;
  for_each (default [] (doc_members data))
    (fun member =>
       try_catch (addMember (Member.to_data member) ;; ret tt)
                 (fun _ => ret tt)) ;;
  match doc_settings data with
  | Some s => saveSettings (LibrarySettings.as_updates s) ;; ret tt
  | None => ret tt
  end.

(** ** Runs of the issue/return workflow *)

Inductive Op :=
| OpIssue (issueData : Issue.data)
| OpReturn (issueId : string).

(** The world an operation leaves behind, whatever became of its promise. *)
Definition step (w : World) (op : Op) : World :=
  match op with
  | OpIssue issueData => (issueBook issueData w).2
  | OpReturn issueId => (returnBook issueId w).2
  end.

Definition run (ops : list Op) (w : World) : World := fold_left step ops w.

(** ** Invariants and observations *)

Definition book_ok (b : Book.t) : Prop :=
  0 <= Book.availableCopies b <= Book.totalCopies b.

Definition books_ok (w : World) : Prop :=
  map_Forall (fun _ b => book_ok b) (books w).

#[global] Instance book_ok_dec b : Decision (book_ok b).
Proof. unfold book_ok. apply _. Defined.
#[global] Instance books_ok_dec w : Decision (books_ok w).
Proof. unfold books_ok. apply _. Defined.

(** Issue records are filed under their own [id], as a store with
    [keyPath: 'id'] has them. *)
Definition issues_keyed (w : World) : Prop :=
  map_Forall (fun k i => Issue.id i = k) (issues w).

#[global] Instance issues_keyed_dec w : Decision (issues_keyed w).
Proof. unfold issues_keyed. apply _. Defined.

(** Books are filed under their own [id] as well. *)
Definition books_keyed (w : World) : Prop :=
  map_Forall (fun k b => Book.id b = k) (books w).

(** An issue without a return date does not have the status "returned". *)
Definition open_issues_ok (w : World) : Prop :=
  map_Forall (fun _ i => Issue.returnDate i = None -> Issue.status i <> returned)
             (issues w).

(** The shape every store has that was filled through the operations. *)
Definition well_kept (w : World) : Prop :=
  books_keyed w /\ issues_keyed w /\ open_issues_ok w.

(** Every stored book has all its copies on the shelf. *)
Definition all_available (w : World) : Prop :=
  map_Forall (fun _ b => Book.availableCopies b = Book.totalCopies b) (books w).

(** The issues [getMemberIssues] counts against the member's limit. *)
Definition active_issues (memberId : string) (w : World) : list Issue.t :=
  filter (is_active memberId) (map_to_list (issues w)).*2.

(** The issues of a member on which no return has been recorded. *)
Definition unreturned (memberId : string) (w : World) : list Issue.t :=
  filter (fun issue => Issue.memberId issue = memberId /\ Issue.returnDate issue = None)
         (map_to_list (issues w)).*2.

(** The checks [issueBook] makes before it writes anything. *)
Definition issue_refused (issueData : Issue.data) (w : World) : Prop :=
  books w !! Issue.d_bookId issueData = None \/
  members w !! Issue.d_memberId issueData = None \/
  (exists book, books w !! Issue.d_bookId issueData = Some book /\
                Book.availableCopies book <= 0) \/
  (exists s, settingsStore w = Some s /\
             LibrarySettings.maxBooksPerMember s
               <= Z.of_nat (length (active_issues (Issue.d_memberId issueData) w))).

(** The member's issue records carry the status "issued" exactly as long
    as no return is recorded on them: none of the member's open loans has
    been marked "overdue". *)
Definition loans_unswept (memberId : string) (w : World) : Prop :=
  map_Forall (fun _ i => Issue.memberId i = memberId ->
                         (Issue.status i = issued <-> Issue.returnDate i = None))
             (issues w).

#[global] Instance loans_unswept_dec memberId w : Decision (loans_unswept memberId w).
Proof. unfold loans_unswept. apply _. Defined.

(** When an issue is to be refused: the book or the member is unknown, no
    copy is available, or the member's loans that are not yet returned
    number at least the limit. *)
Definition issue_barred (issueData : Issue.data) (w : World) : Prop :=
  books w !! Issue.d_bookId issueData = None \/
  members w !! Issue.d_memberId issueData = None \/
  (exists book, books w !! Issue.d_bookId issueData = Some book /\
                Book.availableCopies book <= 0) \/
  (exists s, settingsStore w = Some s /\
             LibrarySettings.maxBooksPerMember s
               <= Z.of_nat (length (unreturned (Issue.d_memberId issueData) w))).

(** No two stored members share an email, and no two share a phone. *)
Definition contacts_unique (w : World) : Prop :=
  NoDup (Member.email <$> (map_to_list (members w)).*2) /\
  NoDup (Member.phone <$> (map_to_list (members w)).*2).

(** ** What an import keeps of an export *)

(** The document [exportData] resolves with. *)
Definition exported (w : World) : Document :=
  mkDocument (Some (map_to_list (books w)).*2) (Some (map_to_list (members w)).*2)
             (Some (map_to_list (issues w)).*2)
             (Some (default (settings w) (settingsStore w))).

(** A book's data with the copies all back on the shelf. *)
Definition restock (d : Book.data) : Book.data :=
  Book.mkData (Book.d_title d) (Book.d_author d) (Book.d_category d)
    (Book.d_publicationYear d) (Book.d_isbn d) (Book.d_totalCopies d)
    (Book.d_totalCopies d).

(** A settings record with another time stamp, filed under 'default'. *)
Definition restamp (s : LibrarySettings.t) (now : Z) : LibrarySettings.t :=
  LibrarySettings.mk "default" (LibrarySettings.defaultLoanDuration s)
    (LibrarySettings.theme s) (LibrarySettings.autoNotifications s)
    (LibrarySettings.finePerDay s) (LibrarySettings.maxBooksPerMember s) now.

(** From query [q0] on, the oracle [f] never repeats an answer. *)
Definition injective_from {A} (q0 : nat) (f : nat -> A) : Prop :=
  forall n m, (q0 <= n)%nat -> (q0 <= m)%nat -> f n = f m -> n = m.

(** ** Example worlds *)

(** An environment whose clock advances ten days per query. *)
Definition demo_env : Env :=
  mkEnv (fun n => "id-" +:+ pretty n)
        (fun n => Z.of_nat n * 10 * ms_per_day)
        (fun n => "LIB" +:+ pretty n).

(** An environment whose clock stands still at day 100. *)
Definition frozen_env : Env :=
  mkEnv (fun n => "id-" +:+ pretty n)
        (fun _ => 100 * ms_per_day)
        (fun n => "LIB" +:+ pretty n).

(** The world once the database has been opened for the first time and
    the [loadSettings] call that [init] starts, without waiting for it, has
    run to its end: the instance was built at query 0 and the default
    settings are stored. *)
Definition opened (e : Env) : World :=
  (loadSettings (mkWorld ∅ ∅ ∅ None (LibrarySettings.initial (clock e 0)) e 1)).2.

Definition demo_book : Book.data :=
  Book.mkData "Dune" "Frank Herbert" "Fiction" 1965 None 1 0.
Definition shelf_book : Book.data :=
  Book.mkData "SICP" "Abelson and Sussman" "Science" 1985 None 5 5.
Definition demo_member : Member.data :=
  Member.mkData "Ada" "555-0100" "ada@example.org" None.
Definition second_member : Member.data :=
  Member.mkData "Bob" "555-0101" "bob@example.org" None.
Definition demo_issue : Issue.data := Issue.mkData "id-2" "id-5" None.

(** One book with a single copy ("id-2") and one member ("id-5"). *)
Definition demo_world : World :=
  (addMember demo_member (addBook demo_book (opened demo_env)).2).2.

(** The only copy lent ("id-10"). *)
Definition lent_world : World := (issueBook demo_issue demo_world).2.

(** The only copy lent ("id-10"), then the book deleted. *)
Definition orphaned_world : World := (deleteBook "id-2" lent_world).2.

(** A second member ("id-9") next to the first. *)
Definition two_member_world : World := (addMember second_member demo_world).2.

(** A shelf with five copies of one book ("id-2") and one member ("id-5"). *)
Definition shelf_world : World :=
  (addMember demo_member (addBook shelf_book (opened demo_env)).2).2.

(** Two copies lent ("id-10", "id-15"), the first returned late. *)
Definition late_return_world : World :=
  (returnBook "id-10"
     (issueBook demo_issue (issueBook demo_issue shelf_world).2).2).2.

(** Three copies lent ("id-10", "id-15", "id-20"), then the sweep. *)
Definition swept_world : World :=
  (updateOverdueStatus
     (issueBook demo_issue
        (issueBook demo_issue (issueBook demo_issue shelf_world).2).2).2).2.

(** Two copies lent under the frozen clock: "id-10" was due on day 50,
    "id-15" is due on day 114. *)
Definition frozen_world : World :=
  (issueBook demo_issue
     (issueBook (Issue.mkData "id-2" "id-5" (Some (50 * ms_per_day)))
        (addMember demo_member (addBook shelf_book (opened frozen_env)).2).2).2).2.

(** ** More of the wrapper: statistics, search and whole sessions *)

Module DashboardStats.
Record t := mk {
  totalBooks : Z;
  totalMembers : Z;
  booksAvailable : Z;
  booksIssued : Z;
  overdueCount : Z;
  totalIssues : Z;
  totalReturns : Z
}.
End DashboardStats.

Definition getDashboardStats : Async DashboardStats.t :=
  let* books := getAllBooks in
  let* members := getAllMembers in
  let* issues := getAllIssues in
  let* overdueBooks := getOverdueBooks in
  ret (DashboardStats.mk
         (Z.of_nat (length books))
         (Z.of_nat (length members))
         (foldl (fun sum book => sum + Book.availableCopies book) 0 books)
         (Z.of_nat (length (filter (fun issue => Issue.status issue = issued) issues)))
         (Z.of_nat (length overdueBooks))
         (Z.of_nat (length issues))
         (Z.of_nat (length (filter (fun issue => Issue.status issue = returned \/
                                                 Issue.status issue = overdue) issues)))).

(** [s.startsWith(needle)] and [s.includes(needle)] on the code units. *)
Fixpoint startsWith (s needle : string) {struct needle} : bool :=
  match needle with
  | EmptyString => true
  | String c needle' =>
      match s with
      | EmptyString => false
      | String d s' => bool_decide (c = d) && startsWith s' needle'
      end
  end.

Fixpoint includes (s needle : string) : bool :=
  startsWith s needle ||
  match s with
  | EmptyString => false
  | String _ s' => includes s' needle
  end.

(** [isbn && isbn.toLowerCase().includes(term)]: an absent or empty ISBN is
    falsy. *)
Definition isbn_includes (lower : string -> string) (isbn : option string)
    (term : string) : bool :=
  match isbn with
  | Some i => negb (bool_decide (i = "")) && includes (lower i) term
  | None => false
  end.

Section Search.
(** [String.prototype.toLowerCase] and [String.prototype.trim] are taken
    from the platform. *)
Variable toLowerCase : string -> string.
Variable trim : string -> string.

Definition book_matches (searchTerm : string) (book : Book.t) : bool :=
  includes (toLowerCase (Book.title book)) searchTerm ||
  includes (toLowerCase (Book.author book)) searchTerm ||
  includes (toLowerCase (Book.category book)) searchTerm ||
  isbn_includes toLowerCase (Book.isbn book) searchTerm.

Definition searchBooks (query : string) : Async (list Book.t) :=
  let* allBooks := getAllBooks in
  if bool_decide (trim query = "") then ret allBooks
  else
    let searchTerm := toLowerCase query in
    ret (List.filter (book_matches searchTerm) allBooks).

Definition member_matches (searchTerm : string) (member : Member.t) : bool :=
  includes (toLowerCase (Member.name member)) searchTerm ||
  includes (toLowerCase (Member.memberId member)) searchTerm ||
  includes (toLowerCase (Member.email member)) searchTerm ||
  includes (Member.phone member) searchTerm.

Definition searchMembers (query : string) : Async (list Member.t) :=
  let* allMembers := getAllMembers in
  if bool_decide (trim query = "") then ret allMembers
  else
    let searchTerm := toLowerCase query in
    ret (List.filter (member_matches searchTerm) allMembers).

(** *** The book page (BookManagement) *)

(** The list shown by the book page for its three filter fields. *)
Definition page_matches (searchTerm : string) (book : Book.t) : bool :=
  includes (toLowerCase (Book.title book)) searchTerm ||
  includes (toLowerCase (Book.author book)) searchTerm ||
  isbn_includes toLowerCase (Book.isbn book) searchTerm.

Definition availability_matches (availabilityFilter : string) (book : Book.t) : bool :=
  if bool_decide (availabilityFilter = "available")
  then bool_decide (0 < Book.availableCopies book)
  else if bool_decide (availabilityFilter = "unavailable")
  then bool_decide (Book.availableCopies book = 0)
  else true.

Definition filteredBooks (books : list Book.t)
    (searchQuery categoryFilter availabilityFilter : string) : list Book.t :=
  let result := books in
  let result :=
    if bool_decide (trim searchQuery = "") then result
    else List.filter (page_matches (toLowerCase searchQuery)) result in
  let result :=
    if bool_decide (categoryFilter = "all") then result
    else List.filter (fun book => bool_decide (Book.category book = categoryFilter)) result in
  let result :=
    if bool_decide (availabilityFilter = "all") then result
    else List.filter (availability_matches availabilityFilter) result in
  result.

(** The form of the book page. *)
Record BookForm := mkBookForm {
  f_title : string;
  f_author : string;
  f_category : string;
  f_publicationYear : Z;
  f_isbn : string;
  f_totalCopies : Z;
  f_availableCopies : Z
}.

(** The [errors] object [validateForm] builds; [currentYear] is
    [new Date().getFullYear()]. *)
Definition formErrors (currentYear : Z) (formData : BookForm) : gmap string string :=
  let errors : gmap string string := ∅ in
  let errors :=
    if bool_decide (trim (f_title formData) = "")
    then <["title" := "Title is required"]> errors else errors in
  let errors :=
    if bool_decide (trim (f_author formData) = "")
    then <["author" := "Author is required"]> errors else errors in
  let errors :=
    if bool_decide (f_category formData = "")
    then <["category" := "Category is required"]> errors else errors in
  let errors :=
    if (f_publicationYear formData <? 1000) || (currentYear <? f_publicationYear formData)
    then <["publicationYear" := "Year must be between 1000 and " +:+ pretty currentYear]> errors
    else errors in
  let errors :=
    if f_totalCopies formData <? 1
    then <["totalCopies" := "Total copies must be at least 1"]> errors else errors in
  let errors :=
    if f_availableCopies formData <? 0
    then <["availableCopies" := "Available copies cannot be negative"]> errors else errors in
  let errors :=
    if f_totalCopies formData <? f_availableCopies formData
    then <["availableCopies" := "Available copies cannot exceed total copies"]> errors
    else errors in
  errors.

(** [Object.keys(errors).length === 0] *)
Definition validateForm (currentYear : Z) (formData : BookForm) : bool :=
  bool_decide (size (formErrors currentYear formData) = 0%nat).

(** [value.trim() || undefined] *)
Definition trimmed_or_undefined (value : string) : option string :=
  if bool_decide (trim value = "") then None else Some (trim value).

(** The argument [handleAddBook] passes to [addBook]. *)
Definition form_data (formData : BookForm) : Book.data :=
  Book.mkData (trim (f_title formData)) (trim (f_author formData))
    (f_category formData) (f_publicationYear formData)
    (trimmed_or_undefined (f_isbn formData))
    (f_totalCopies formData) (f_availableCopies formData).

(** The argument [handleEditBook] passes to [updateBook]. *)
Definition form_updates (formData : BookForm) : Book.updates :=
  Book.mkUpdates (Some (trim (f_title formData))) (Some (trim (f_author formData)))
    (Some (f_category formData)) (Some (f_publicationYear formData))
    (Some (trimmed_or_undefined (f_isbn formData)))
    (Some (f_totalCopies formData)) (Some (f_availableCopies formData)).
End Search.

(** *** The dashboard page *)

(** [books.reduce((sum, book) => sum + book.totalCopies, 0)] *)
Definition totalCopies_of (books : list Book.t) : Z :=
  foldl (fun sum book => sum + Book.totalCopies book) 0 books.

(** *** Sessions *)

(** The issue/return workflow together with the periodic sweep. *)
Inductive Task :=
| TaskIssue (issueData : Issue.data)
| TaskReturn (issueId : string)
| TaskSweep.

Definition perform (w : World) (task : Task) : World :=
  match task with
  | TaskIssue issueData => (issueBook issueData w).2
  | TaskReturn issueId => (returnBook issueId w).2
  | TaskSweep => (updateOverdueStatus w).2
  end.

Definition performs (tasks : list Task) (w : World) : World := fold_left perform tasks w.

(** Any call a page can make on the wrapper. *)
Inductive Call :=
| CallAddBook (bookData : Book.data)
| CallUpdateBook (id : string) (updates : Book.updates)
| CallDeleteBook (id : string)
| CallAddMember (memberData : Member.data)
| CallUpdateMember (id : string) (updates : Member.updates)
| CallDeleteMember (id : string)
| CallIssueBook (issueData : Issue.data)
| CallReturnBook (issueId : string)
| CallUpdateOverdueStatus
| CallGetDashboardStats
| CallSaveSettings (s : LibrarySettings.updates)
| CallExportData
| CallImportData (data : Document)
| CallClearAllData.

Definition exec (w : World) (call : Call) : World :=
  match call with
  | CallAddBook bookData => (addBook bookData w).2
  | CallUpdateBook id updates => (updateBook id updates w).2
  | CallDeleteBook id => (deleteBook id w).2
  | CallAddMember memberData => (addMember memberData w).2
  | CallUpdateMember id updates => (updateMember id updates w).2
  | CallDeleteMember id => (deleteMember id w).2
  | CallIssueBook issueData => (issueBook issueData w).2
  | CallReturnBook issueId => (returnBook issueId w).2
  | CallUpdateOverdueStatus => (updateOverdueStatus w).2
  | CallGetDashboardStats => (getDashboardStats w).2
  | CallSaveSettings s => (saveSettings s w).2
  | CallExportData => (exportData w).2
  | CallImportData data => (importData data w).2
  | CallClearAllData => (clearAllData w).2
  end.

Definition session (calls : list Call) (w : World) : World := fold_left exec calls w.

(** Members are filed under their own [id]. *)
Definition members_keyed (w : World) : Prop :=
  map_Forall (fun k m => Member.id m = k) (members w).

(** The stored settings are the cached ones, under 'default'. *)
Definition settings_loaded (w : World) : Prop :=
  settingsStore w = Some (settings w) /\ LibrarySettings.id (settings w) = "default".

(** What one issue record may become: the loan itself is never rewritten, a
    record of status "returned" is final, a status other than "issued" never
    goes back to "issued", and a return date is never taken away. *)
Definition evolves (i i' : Issue.t) : Prop :=
  Issue.id i' = Issue.id i /\
  Issue.bookId i' = Issue.bookId i /\
  Issue.memberId i' = Issue.memberId i /\
  Issue.bookTitle i' = Issue.bookTitle i /\
  Issue.memberName i' = Issue.memberName i /\
  Issue.issueDate i' = Issue.issueDate i /\
  Issue.dueDate i' = Issue.dueDate i /\
  Issue.createdAt i' = Issue.createdAt i /\
  (Issue.status i = returned -> i' = i) /\
  (Issue.status i <> issued -> Issue.status i' <> issued) /\
  (is_Some (Issue.returnDate i) -> is_Some (Issue.returnDate i')).

#[global] Instance well_kept_dec w : Decision (well_kept w).
Proof. unfold well_kept, books_keyed, issues_keyed, open_issues_ok. apply _. Defined.
#[global] Instance members_keyed_dec w : Decision (members_keyed w).
Proof. unfold members_keyed. apply _. Defined.
#[global] Instance Theme_eq_dec : EqDecision Theme.
Proof. solve_decision. Defined.
#[global] Instance LibrarySettings_eq_dec : EqDecision LibrarySettings.t.
Proof. solve_decision. Defined.
#[global] Instance settings_loaded_dec w : Decision (settings_loaded w).
Proof. unfold settings_loaded. apply _. Defined.

(** The member stays within the limit stored in the settings. *)
Definition within_limit (memberId : string) (s : LibrarySettings.t) (w : World) : Prop :=
  settingsStore w = Some s /\
  Z.of_nat (length (active_issues memberId w)) <= LibrarySettings.maxBooksPerMember s.

(** The shape of every world a session reaches: records under their own
    ids, no open issue of status "returned", settings stored and cached. *)
Definition tidy (w : World) : Prop :=
  well_kept w /\ members_keyed w /\ settings_loaded w.

(** What [importData] can leave in the stores, given the document: no
    issue; books and members that carry the data of a document entry. *)
Definition drawn_from (data : Document) (w : World) : Prop :=
  issues w = ∅ /\
  map_Forall (fun _ b => exists b0, b0 ∈ default [] (doc_books data) /\
                                    Book.to_data b = restock (Book.to_data b0))
             (books w) /\
  map_Forall (fun _ m => exists m0, m0 ∈ default [] (doc_members data) /\
                                    Member.to_data m = Member.to_data m0)
             (members w).

(** A field holds the query, letter case aside. *)
Definition holds (lower : string -> string) (query field : string) : Prop :=
  exists pre post, lower field = pre +:+ lower query +:+ post.

(** The forms of the book page that carry no error. *)
Definition form_acceptable (trim : string -> string) (currentYear : Z)
    (formData : BookForm) : Prop :=
  trim (f_title formData) <> "" /\
  trim (f_author formData) <> "" /\
  f_category formData <> "" /\
  1000 <= f_publicationYear formData <= currentYear /\
  1 <= f_totalCopies formData /\
  0 <= f_availableCopies formData <= f_totalCopies formData.

(** No two stored members share a member code. *)
Definition codes_unique (w : World) : Prop :=
  NoDup (Member.memberId <$> (map_to_list (members w)).*2).

(* ================================================================== *)
(** * Properties *)

(** ** Tactics and general facts *)

Ltac unfold_async :=
  unfold getBookById, getMemberById, getAllBooks, getAllMembers, getAllIssues,
    getSettings, getMemberIssues, newDate, generateId, generateMemberId,
    in_handler, try_catch, bind, ret, throw in *.

(** Closed goals about the example worlds: split the conjunctions, leave the
    witnesses to the first equation that mentions them, and evaluate. *)
Ltac by_evaluation :=
  repeat match goal with
         | |- _ /\ _ => split
         | |- exists _, _ => eexists
         end;
  vm_compute; reflexivity.

Lemma bind_preserves {A B} (P : World -> Prop) (m : Async A) (k : A -> Async B) w :
  P (m w).2 -> (forall a w', P w' -> P (k a w').2) -> P (bind m k w).2.
Proof.
  unfold bind. destruct (m w) as [[a|e|] w']; simpl; auto.
Qed.

Lemma try_catch_preserves {A} (P : World -> Prop) (m : Async A) h w :
  P (m w).2 -> (forall e w', P w' -> P (h e w').2) -> P (try_catch m h w).2.
Proof.
  unfold try_catch. destruct (m w) as [[a|e|] w']; simpl; auto.
Qed.

Lemma for_each_preserves {A} (P : World -> Prop) (l : list A) (f : A -> Async unit) :
  (forall x w, P w -> P (f x w).2) ->
  forall w, P w -> P (for_each l f w).2.
Proof.
  intros Hf. induction l as [|x l IH]; intros w Hw; simpl; [done|].
  apply bind_preserves; auto.
Qed.

Lemma elem_of_values {A} (m : gmap string A) (x : A) :
  x ∈ (map_to_list m).*2 <-> exists k, m !! k = Some x.
Proof.
  rewrite list_elem_of_fmap. split.
  - intros [[k y] [-> Hin]]. exists k. by apply elem_of_map_to_list.
  - intros [k Hk]. exists (k, x). split; [done|]. by apply elem_of_map_to_list.
Qed.

Lemma values_insert {A} (m : gmap string A) k x :
  m !! k = None -> (map_to_list (<[k:=x]> m)).*2 ≡ₚ x :: (map_to_list m).*2.
Proof. intros H. by rewrite (map_to_list_insert m k x H). Qed.

Lemma some_false {A} (p : A -> bool) (l : list A) :
  (forall x, x ∈ l -> p x = false) -> some p l = false.
Proof.
  unfold some. induction l as [|y l IH]; intros H; simpl; [done|].
  rewrite (H y) by (apply elem_of_cons; by left). simpl.
  apply IH. intros x Hx. apply H, elem_of_cons. by right.
Qed.

Lemma some_true {A} (p : A -> bool) (l : list A) x :
  x ∈ l -> p x = true -> some p l = true.
Proof.
  unfold some. intros Hx Hp. apply existsb_exists. exists x.
  split; [by apply list_elem_of_In|done].
Qed.

Lemma some_false_inv {A} (p : A -> bool) (l : list A) x :
  some p l = false -> x ∈ l -> p x = false.
Proof.
  intros Hs Hx. destruct (p x) eqn:Hp; [|done].
  by rewrite (some_true p l x Hx Hp) in Hs.
Qed.

Lemma exportData_resolves w : exportData w = (Resolved (exported w), w).
Proof. done. Qed.

(** ** The availability counter *)

Lemma updateBookAvailability_missing bookId change w :
  books w !! bookId = None ->
  updateBookAvailability bookId change w = (Rejected BookNotFound, w).
Proof.
  intros H. unfold updateBookAvailability. unfold_async. by rewrite H.
Qed.

Lemma updateBookAvailability_found bookId change w b :
  books w !! bookId = Some b ->
  updateBookAvailability bookId change w =
    (Resolved tt,
     set_books
       (insert (Book.id b)
          (Book.spread b
             (Book.mkUpdates None None None None None None
                (Some (Z.max 0 (Z.min (Book.totalCopies b) (Book.availableCopies b + change)))))
             (now_of w)))
       (tick w)).
Proof.
  intros H. unfold updateBookAvailability, updateBook. unfold_async.
  rewrite H. simpl. by rewrite H.
Qed.

Lemma updateBookAvailability_books_ok bookId change w :
  books_ok w -> books_ok (updateBookAvailability bookId change w).2.
Proof.
  intros Hok. destruct (books w !! bookId) as [b|] eqn:Hb.
  - rewrite (updateBookAvailability_found _ _ _ _ Hb). simpl.
    apply map_Forall_insert_2; [|exact Hok].
    specialize (Hok _ _ Hb). unfold book_ok in *. simpl. lia.
  - by rewrite updateBookAvailability_missing.
Qed.

Lemma issueBook_books_ok issueData w :
  books_ok w -> books_ok (issueBook issueData w).2.
Proof.
  intros Hok. unfold issueBook. unfold_async.
  repeat (case_match; simplify_eq/=); try done;
    match goal with
    | H : updateBookAvailability ?b ?c ?w' = (_, ?w'') |- books_ok ?w'' =>
        replace w'' with (updateBookAvailability b c w').2 by (by rewrite H);
        by apply updateBookAvailability_books_ok
    end.
Qed.

Lemma returnBook_books_ok issueId w :
  books_ok w -> books_ok (returnBook issueId w).2.
Proof.
  intros Hok. unfold returnBook. unfold_async.
  repeat (case_match; simplify_eq/=); try done;
    match goal with
    | H : updateBookAvailability ?b ?c ?w' = (_, ?w'') |- books_ok ?w'' =>
        replace w'' with (updateBookAvailability b c w').2 by (by rewrite H);
        by apply updateBookAvailability_books_ok
    end.
Qed.

Lemma step_books_ok w op : books_ok w -> books_ok (step w op).
Proof.
  destruct op; simpl; auto using issueBook_books_ok, returnBook_books_ok.
Qed.

Lemma run_books_ok ops w : books_ok w -> books_ok (run ops w).
Proof.
  revert w. induction ops as [|op ops IH]; intros w Hok; [done|].
  simpl. apply IH. by apply step_books_ok.
Qed.

(** ** C1: the availability counter stays within its bounds *)

(** C1. Starting from a store in which every book has
    [0 <= availableCopies <= totalCopies], every book of the store reached
    by any sequence of [issueBook] and [returnBook] calls (whatever their
    outcomes) still has [0 <= availableCopies <= totalCopies]. *)
Theorem availability_within_bounds (ops : list Op) (w : World) :
  books_ok w ->
  forall bookId book,
    books (run ops w) !! bookId = Some book ->
    0 <= Book.availableCopies book <= Book.totalCopies book.
Proof.
  intros Hok bookId book Hb.
  exact (run_books_ok ops w Hok bookId book Hb).
Qed.

Lemma availability_within_bounds_witness :
  exists book,
    books (run [OpIssue demo_issue; OpReturn "id-10"; OpReturn "id-10"] demo_world)
      !! "id-2" = Some book /\
    0 <= Book.availableCopies book <= Book.totalCopies book.
Proof.
  eexists. split; [vm_compute; reflexivity|].
  apply (availability_within_bounds
           [OpIssue demo_issue; OpReturn "id-10"; OpReturn "id-10"] demo_world
           ltac:(compute_done) "id-2").
  vm_compute. reflexivity.
Defined.

(** ** Adding books *)

Lemma addBook_cases bookData w :
  let id := uuid (env w) (queries w) in
  let book :=
    Book.mk id (Book.d_title bookData) (Book.d_author bookData)
      (Book.d_category bookData) (Book.d_publicationYear bookData)
      (Book.d_isbn bookData) (Book.d_totalCopies bookData)
      (Book.d_totalCopies bookData)
      (clock (env w) (S (queries w))) (clock (env w) (S (S (queries w)))) in
  addBook bookData w =
    match books w !! id with
    | Some _ => (Rejected FailedToAddBook, tick (tick (tick w)))
    | None => (Resolved book, set_books (insert id book) (tick (tick (tick w))))
    end.
Proof.
  unfold addBook. unfold_async. simpl. by destruct (books w !! _).
Qed.

Lemma addBook_all_available bookData w :
  all_available w -> all_available (addBook bookData w).2.
Proof.
  intros Hw. rewrite addBook_cases. simpl.
  destruct (books w !! _); simpl; [done|].
  by apply map_Forall_insert_2.
Qed.

Lemma addBook_members bookData w : members (addBook bookData w).2 = members w.
Proof. rewrite addBook_cases. simpl. by destruct (books w !! _). Qed.

Lemma addMember_books memberData w : books (addMember memberData w).2 = books w.
Proof.
  unfold addMember. unfold_async. simpl.
  repeat (case_match; simplify_eq/=); done.
Qed.

Lemma saveSettings_books s w : books (saveSettings s w).2 = books w.
Proof. done. Qed.

Lemma importData_all_available data w : all_available (importData data w).2.
Proof.
  unfold importData.
  apply bind_preserves; [simpl; apply map_Forall_empty|].
  intros _ w1 H1. apply bind_preserves.
  { apply for_each_preserves; [|done]. intros b w' Hw'.
    apply bind_preserves; [by apply addBook_all_available|done]. }
  intros _ w2 H2. apply bind_preserves.
  { apply for_each_preserves; [|done]. intros m w' Hw'.
    apply try_catch_preserves; [|done].
    apply bind_preserves; [|done].
    unfold all_available. by rewrite addMember_books. }
  intros _ w3 H3. destruct (doc_settings data); [|done].
  apply bind_preserves; done.
Qed.

(** ** C10: a new book starts with all copies available *)

(** C10. [addBook] ignores the [availableCopies] of its argument: when the
    generated id is free the promise resolves with, and the store gains, a
    book whose [availableCopies] is the [totalCopies] supplied; when the id
    is taken the request fails and nothing is stored.  Hence after
    [importData], of any document in any world, every stored book has
    [availableCopies = totalCopies]. *)
Theorem addBook_starts_fully_available (bookData : Book.data) (w : World) :
  match books w !! uuid (env w) (queries w) with
  | None =>
      exists book w',
        addBook bookData w = (Resolved book, w') /\
        Book.totalCopies book = Book.d_totalCopies bookData /\
        Book.availableCopies book = Book.d_totalCopies bookData /\
        books w' = <[Book.id book := book]> (books w)
  | Some _ =>
      exists w', addBook bookData w = (Rejected FailedToAddBook, w') /\
                 books w' = books w
  end /\
  forall (data : Document) bookId book,
    books (importData data w).2 !! bookId = Some book ->
    Book.availableCopies book = Book.totalCopies book.
Proof.
  split.
  - rewrite addBook_cases. simpl. destruct (books w !! _); eauto 10.
  - intros data. apply importData_all_available.
Qed.

Lemma addBook_starts_fully_available_witness :
  Book.availableCopies <$> (map_to_list (books lent_world)).*2 = [0] /\
  exists book,
    books (importData (exported lent_world) lent_world).2 !! "id-14" = Some book /\
    Book.availableCopies book = Book.totalCopies book.
Proof.
  split; [vm_compute; reflexivity|].
  eexists. split; [vm_compute; reflexivity|].
  destruct (addBook_starts_fully_available demo_book lent_world) as [_ Himport].
  apply (Himport (exported lent_world) "id-14"). vm_compute. reflexivity.
Defined.

(** ** The overdue sweep *)

Lemma updateIssue_mark_overdue w k i :
  issues w !! k = Some i -> Issue.id i = k ->
  updateIssue k Issue.mark_overdue w =
    (Resolved (Issue.spread i Issue.mark_overdue (now_of w)),
     set_issues (insert k (Issue.spread i Issue.mark_overdue (now_of w))) (tick w)).
Proof.
  intros Hi Hk. unfold updateIssue. rewrite Hi. unfold_async. simpl.
  by rewrite Hk.
Qed.

(** The loop of the sweep over a list [l] of issues that are all stored. *)
Lemma sweep_loop (l : list Issue.t) :
  forall w,
    issues_keyed w ->
    (forall x, x ∈ l -> is_Some (issues w !! Issue.id x)) ->
    exists w',
      for_each l (fun issue => updateIssue (Issue.id issue) Issue.mark_overdue ;; ret tt) w
        = (Resolved tt, w') /\
      books w' = books w /\ members w' = members w /\
      settingsStore w' = settingsStore w /\ settings w' = settings w /\
      env w' = env w /\
      forall k,
        match issues w !! k with
        | None => issues w' !! k = None
        | Some i =>
            if decide (k ∈ Issue.id <$> l)
            then exists t, issues w' !! k = Some (Issue.spread i Issue.mark_overdue t)
            else issues w' !! k = Some i
        end.
Proof.
  induction l as [|x l IH]; intros w Hkeyed Hstored.
  - exists w. repeat split. intros k. destruct (issues w !! k); [|done].
    rewrite decide_False; [done|]. simpl. apply not_elem_of_nil.
  - destruct (Hstored x) as [i0 Hi0]; [apply elem_of_cons; by left|].
    pose proof (Hkeyed _ _ Hi0) as Hid0. simpl in Hid0.
    set (k0 := Issue.id x) in *.
    set (i1 := Issue.spread i0 Issue.mark_overdue (now_of w)).
    set (w1 := set_issues (insert k0 i1) (tick w)).
    destruct (IH w1) as (w' & Hrun & Hb & Hm & Hs & Hc & He & Hflip).
    { intros k i. simpl. rewrite lookup_insert_Some.
      intros [[<- <-]|[_ Hk]]; [done|by apply Hkeyed]. }
    { intros y Hy. simpl.
      destruct (decide (k0 = Issue.id y)) as [<-|Hne].
      - rewrite lookup_insert_eq. eauto.
      - rewrite lookup_insert_ne by done. apply Hstored, elem_of_cons. by right. }
    exists w'. split.
    { simpl. unfold bind at 1. unfold bind at 1.
      rewrite (updateIssue_mark_overdue w (Issue.id x) i0 Hi0 Hid0). simpl. exact Hrun. }
    repeat split; try done.
    intros k. specialize (Hflip k). simpl in Hflip. rewrite fmap_cons.
    fold k0. destruct (decide (k = k0)) as [->|Hne].
    + rewrite Hi0. rewrite lookup_insert_eq in Hflip.
      rewrite decide_True by (apply elem_of_cons; by left).
      destruct (decide (k0 ∈ Issue.id <$> l)); [|eauto].
      destruct Hflip as [t Ht]. exists t. by rewrite Ht.
    + rewrite lookup_insert_ne in Hflip by done.
      destruct (issues w !! k) as [i|]; [|done].
      destruct (decide (k ∈ Issue.id <$> l)) as [Hin|Hnin].
      * rewrite decide_True by (apply elem_of_cons; by right). done.
      * rewrite decide_False; [done|].
        rewrite elem_of_cons. intros [?|?]; done.
Qed.

Lemma sweep_selects w now k i :
  issues_keyed w -> issues w !! k = Some i ->
  k ∈ Issue.id <$> filter (is_overdue now) (map_to_list (issues w)).*2 <->
  is_overdue now i.
Proof.
  intros Hkeyed Hi. rewrite list_elem_of_fmap. split.
  - intros (x & -> & Hx). apply list_elem_of_filter in Hx as [Hov Hx].
    apply elem_of_values in Hx as [k' Hk'].
    pose proof (Hkeyed _ _ Hk') as Hid. simpl in Hid. subst k'.
    by simplify_eq.
  - intros Hov. exists i. split; [symmetry; by apply (Hkeyed _ _ Hi)|].
    apply list_elem_of_filter. split; [done|]. apply elem_of_values. eauto.
Qed.

Lemma updateOverdueStatus_flips w :
  issues_keyed w ->
  exists w1,
    updateOverdueStatus w = (Resolved tt, w1) /\
    books w1 = books w /\ members w1 = members w /\
    settingsStore w1 = settingsStore w /\ settings w1 = settings w /\
    env w1 = env w /\
    forall k,
      match issues w !! k with
      | None => issues w1 !! k = None
      | Some i =>
          if decide (is_overdue (now_of w) i)
          then exists t, issues w1 !! k = Some (Issue.spread i Issue.mark_overdue t)
          else issues w1 !! k = Some i
      end.
Proof.
  intros Hkeyed.
  destruct (sweep_loop (filter (is_overdue (now_of w)) (map_to_list (issues w)).*2) (tick w))
    as (w1 & Hrun & Hb & Hm & Hs & Hc & He & Hflip).
  { exact Hkeyed. }
  { intros x Hx. apply list_elem_of_filter in Hx as [_ Hx].
    apply elem_of_values in Hx as [k Hk]. simpl.
    rewrite (Hkeyed _ _ Hk). eauto. }
  exists w1. split; [exact Hrun|]. repeat split; try done.
  intros k. specialize (Hflip k). simpl in Hflip.
  destruct (issues w !! k) as [i|] eqn:Hi; [|done].
  pose proof (sweep_selects w (now_of w) k i Hkeyed Hi) as Hsel.
  destruct (decide (is_overdue (now_of w) i)) as [Hov|Hnov].
  - rewrite decide_True in Hflip by (by apply Hsel). done.
  - rewrite decide_False in Hflip by (by rewrite Hsel). done.
Qed.

Lemma updateOverdueStatus_nothing_due w :
  (forall k i, issues w !! k = Some i -> ~ is_overdue (now_of w) i) ->
  updateOverdueStatus w = (Resolved tt, tick w).
Proof.
  intros Hnone. unfold updateOverdueStatus. unfold_async. simpl.
  replace (filter _ _) with (@nil Issue.t); [done|].
  symmetry. apply elem_of_nil_inv. intros x Hx.
  apply list_elem_of_filter in Hx as [Hov Hx].
  apply elem_of_values in Hx as [k Hk]. by apply (Hnone k x).
Qed.

(** ** C7: the sweep flips exactly the due issues and is idempotent *)

(** C7. On a store whose issues are filed under their ids,
    [updateOverdueStatus] resolves; it leaves books, members and settings
    alone; an issue with status "issued" and [dueDate < now] gets status
    "overdue" (and a fresh [updatedAt]), every other issue is unchanged and
    none is added or removed.  If the second run of the sweep reads the
    same current time, it resolves too and leaves the stores exactly as the
    first run left them. *)
Theorem updateOverdueStatus_idempotent (w : World) :
  issues_keyed w ->
  exists w1,
    updateOverdueStatus w = (Resolved tt, w1) /\
    books w1 = books w /\ members w1 = members w /\
    settingsStore w1 = settingsStore w /\ settings w1 = settings w /\
    env w1 = env w /\
    (forall k,
       match issues w !! k with
       | None => issues w1 !! k = None
       | Some i =>
           if decide (Issue.status i = issued /\ Issue.dueDate i < now_of w)
           then exists t, issues w1 !! k = Some (Issue.spread i Issue.mark_overdue t)
           else issues w1 !! k = Some i
       end) /\
    (now_of w1 = now_of w ->
     exists w2, updateOverdueStatus w1 = (Resolved tt, w2) /\ contents w2 = contents w1).
Proof.
  intros Hkeyed.
  destruct (updateOverdueStatus_flips w Hkeyed)
    as (w1 & Hrun & Hb & Hm & Hs & Hc & He & Hflip).
  exists w1. do 6 (split; [done|]). split.
  - intros k. specialize (Hflip k). destruct (issues w !! k); [|done].
    unfold is_overdue in Hflip.
    destruct (decide _) as [H1|H1] in Hflip; destruct (decide _) as [H2|H2]; done.
  - intros Hnow. exists (tick w1). split; [|done].
    apply updateOverdueStatus_nothing_due. intros k i' Hi'.
    specialize (Hflip k). rewrite Hnow.
    destruct (issues w !! k) as [i|]; [|congruence].
    destruct (decide (is_overdue (now_of w) i)) as [Hov|Hnov].
    + destruct Hflip as [t Ht]. rewrite Hi' in Ht. simplify_eq.
      intros [Hst _]. done.
    + rewrite Hi' in Hflip. by simplify_eq.
Qed.

Lemma updateOverdueStatus_idempotent_witness :
  exists w1 w2,
    updateOverdueStatus frozen_world = (Resolved tt, w1) /\
    Issue.status <$> issues w1 !! "id-10" = Some overdue /\
    Issue.status <$> issues w1 !! "id-15" = Some issued /\
    updateOverdueStatus w1 = (Resolved tt, w2) /\
    contents w2 = contents w1.
Proof.
  destruct (updateOverdueStatus_idempotent frozen_world ltac:(compute_done))
    as (w1 & Hrun & _ & _ & _ & _ & _ & _ & Hagain).
  vm_compute in Hrun. injection Hrun as <-.
  destruct (Hagain ltac:(vm_compute; reflexivity)) as (w2 & Hrun2 & Hsame).
  eexists _, w2. split; [vm_compute; reflexivity|].
  split; [vm_compute; reflexivity|].
  split; [vm_compute; reflexivity|].
  split; [exact Hrun2|exact Hsame].
Defined.

(** ** Issuing *)

Lemma issueBook_refused issueData w s :
  settingsStore w = Some s ->
  issue_refused issueData w ->
  exists e, issueBook issueData w = (Rejected e, w).
Proof.
  intros Hs Href. unfold issueBook. unfold_async. rewrite Hs. simpl.
  destruct (books w !! Issue.d_bookId issueData) as [book|] eqn:Hb; [|eauto].
  destruct (members w !! Issue.d_memberId issueData) as [member|] eqn:Hm; [|eauto].
  destruct (Z.leb_spec (Book.availableCopies book) 0) as [Hav|Hav]; [eauto|].
  destruct (Z.leb_spec (LibrarySettings.maxBooksPerMember s)
              (Z.of_nat (length (filter (is_active (Issue.d_memberId issueData))
                                   (map_to_list (issues w)).*2)))) as [Hmax|Hmax];
    [eauto|].
  exfalso. destruct Href as [?|[?|[(b & Hb' & ?)|(s' & Hs' & Hle)]]]; simplify_eq.
  - lia.
  - unfold active_issues in Hle. lia.
Qed.

Lemma issueBook_accepted issueData w s book member :
  settingsStore w = Some s ->
  books w !! Issue.d_bookId issueData = Some book ->
  members w !! Issue.d_memberId issueData = Some member ->
  0 < Book.availableCopies book ->
  Z.of_nat (length (active_issues (Issue.d_memberId issueData) w))
    < LibrarySettings.maxBooksPerMember s ->
  issues w !! uuid (env w) (S (queries w)) = None ->
  let issue :=
    Issue.mk (uuid (env w) (S (queries w)))
      (Issue.d_bookId issueData) (Issue.d_memberId issueData)
      (Book.title book) (Member.name member) (now_of w)
      (default (now_of w + LibrarySettings.defaultLoanDuration s * ms_per_day)
               (Issue.d_dueDate issueData))
      None issued
      (clock (env w) (S (S (queries w)))) (clock (env w) (S (S (S (queries w))))) in
  let book' :=
    Book.spread book
      (Book.mkUpdates None None None None None None
         (Some (Z.max 0 (Z.min (Book.totalCopies book) (Book.availableCopies book + -1)))))
      (clock (env w) (S (S (S (S (queries w)))))) in
  issueBook issueData w =
    (Resolved issue,
     mkWorld (<[Book.id book' := book']> (books w)) (members w)
       (<[Issue.id issue := issue]> (issues w))
       (settingsStore w) (settings w) (env w) (S (S (S (S (S (queries w))))))).
Proof.
  intros Hs Hb Hm Hav Hmax Hfresh issue book'.
  unfold issueBook. unfold_async. rewrite Hs, Hb, Hm. simpl.
  destruct (Z.leb_spec (Book.availableCopies book) 0) as [?|_]; [lia|].
  unfold active_issues in Hmax.
  destruct (Z.leb_spec (LibrarySettings.maxBooksPerMember s)
              (Z.of_nat (length (filter (is_active (Issue.d_memberId issueData))
                                   (map_to_list (issues w)).*2)))) as [?|_]; [lia|].
  simpl. rewrite Hfresh. simpl.
  erewrite updateBookAvailability_found by (simpl; exact Hb).
  subst issue book'. unfold ms_per_day, now_of, set_books, set_issues, tick. simpl.
  by rewrite !Z.mul_assoc, Hs.
Qed.

Lemma issue_refused_or_ready issueData w s :
  settingsStore w = Some s ->
  issue_refused issueData w \/
  exists book member,
    books w !! Issue.d_bookId issueData = Some book /\
    members w !! Issue.d_memberId issueData = Some member /\
    0 < Book.availableCopies book /\
    Z.of_nat (length (active_issues (Issue.d_memberId issueData) w))
      < LibrarySettings.maxBooksPerMember s.
Proof.
  intros Hs. unfold issue_refused.
  destruct (books w !! Issue.d_bookId issueData) as [book|] eqn:Hb;
    [|by left; left].
  destruct (members w !! Issue.d_memberId issueData) as [member|] eqn:Hm;
    [|by left; right; left].
  destruct (Z.le_gt_cases (Book.availableCopies book) 0) as [Hav|Hav];
    [left; right; right; left; eauto|].
  destruct (Z.le_gt_cases (LibrarySettings.maxBooksPerMember s)
              (Z.of_nat (length (active_issues (Issue.d_memberId issueData) w))))
    as [Hmax|Hmax]; [left; right; right; right; eauto|].
  right. exists book, member. repeat split; (done || lia).
Qed.

Lemma unswept_active_unreturned memberId w :
  loans_unswept memberId w -> active_issues memberId w = unreturned memberId w.
Proof.
  intros Hw. unfold active_issues, unreturned.
  assert (Hall : Forall (fun i => Issue.memberId i = memberId ->
                           (Issue.status i = issued <-> Issue.returnDate i = None))
                        (map_to_list (issues w)).*2).
  { apply Forall_forall. intros i Hin.
    apply list_elem_of_fmap in Hin as ([k i'] & -> & Hin).
    apply elem_of_map_to_list in Hin. exact (Hw _ _ Hin). }
  induction Hall as [|i l Hi _ IH]; [done|].
  rewrite !filter_cons, IH. unfold is_active.
  repeat case_decide; first [done | exfalso; intuition congruence].
Qed.

Lemma issue_barred_refused issueData w :
  loans_unswept (Issue.d_memberId issueData) w ->
  issue_barred issueData w <-> issue_refused issueData w.
Proof.
  intros Hw. unfold issue_barred, issue_refused.
  by rewrite (unswept_active_unreturned _ _ Hw).
Qed.

(** ** C4: when [issueBook] fails and what it does when it succeeds *)

(** C4, as amended.  In a world whose settings record is stored, whose next
    generated id is not yet an issue id, whose requested book (if stored)
    is filed under its id with [availableCopies <= totalCopies], and where
    the member's issues have the status "issued" exactly as long as they
    carry no return date (no open loan of the member has been marked
    "overdue"): [issueBook] is rejected exactly when the book does not
    exist, the member does not exist, the book has [availableCopies <= 0],
    or the member's issues that are not yet returned number at least
    [maxBooksPerMember]; a rejected call changes nothing.  Otherwise it
    resolves with a new issue record of status "issued", without return
    date, dated now, due at the given due date or else now plus
    [defaultLoanDuration] days, stored under a fresh id, and the book's
    [availableCopies] drops by one. *)
Theorem issueBook_outcome (issueData : Issue.data) (w : World) (s : LibrarySettings.t) :
  settingsStore w = Some s ->
  issues w !! uuid (env w) (S (queries w)) = None ->
  (forall book, books w !! Issue.d_bookId issueData = Some book ->
     Book.id book = Issue.d_bookId issueData /\
     Book.availableCopies book <= Book.totalCopies book) ->
  loans_unswept (Issue.d_memberId issueData) w ->
  ((exists e w', issueBook issueData w = (Rejected e, w')) <->
   issue_barred issueData w) /\
  (issue_barred issueData w -> (issueBook issueData w).2 = w) /\
  (~ issue_barred issueData w ->
   exists book member issue w',
     books w !! Issue.d_bookId issueData = Some book /\
     members w !! Issue.d_memberId issueData = Some member /\
     issueBook issueData w = (Resolved issue, w') /\
     Issue.status issue = issued /\
     Issue.returnDate issue = None /\
     Issue.bookId issue = Issue.d_bookId issueData /\
     Issue.memberId issue = Issue.d_memberId issueData /\
     Issue.issueDate issue = now_of w /\
     Issue.dueDate issue =
       default (now_of w + LibrarySettings.defaultLoanDuration s * ms_per_day)
               (Issue.d_dueDate issueData) /\
     issues w !! Issue.id issue = None /\
     issues w' = <[Issue.id issue := issue]> (issues w) /\
     exists book',
       books w' = <[Issue.d_bookId issueData := book']> (books w) /\
       Book.totalCopies book' = Book.totalCopies book /\
       Book.availableCopies book' = Book.availableCopies book - 1).
Proof.
  intros Hs Hfresh Hbook Hunswept.
  rewrite (issue_barred_refused issueData w Hunswept).
  destruct (issue_refused_or_ready issueData w s Hs)
    as [Href|(book & member & Hb & Hm & Hav & Hmax)].
  - destruct (issueBook_refused issueData w s Hs Href) as [e He].
    split; [split; eauto|]. split; [by rewrite He|]. by intros Hnot.
  - assert (Hnot : ~ issue_refused issueData w).
    { intros [?|[?|[(b & Hb' & ?)|(s' & Hs' & Hle)]]]; simplify_eq; lia. }
    pose proof (issueBook_accepted issueData w s book member Hs Hb Hm Hav Hmax Hfresh)
      as Hrun.
    destruct (Hbook book Hb) as [Hid Hle].
    split; [split|split].
    + intros (e & w' & Hrej). rewrite Hrun in Hrej. discriminate.
    + by intros Href.
    + by intros Href.
    + intros _. exists book, member. eexists _, _.
      split; [done|]. split; [done|]. split; [exact Hrun|].
      simpl. do 8 (split; [done|]).
      eexists. rewrite Hid. split; [reflexivity|]. simpl. split; [done|]. lia.
Qed.

Lemma issueBook_outcome_witness :
  length (unreturned "id-5" (issueBook demo_issue shelf_world).2) = 1%nat /\
  exists issue w',
    issueBook demo_issue (issueBook demo_issue shelf_world).2 = (Resolved issue, w') /\
    Issue.status issue = issued /\
    Issue.dueDate issue =
      now_of (issueBook demo_issue shelf_world).2 + 14 * ms_per_day.
Proof.
  split; [vm_compute; reflexivity|].
  destruct (issueBook_outcome demo_issue (issueBook demo_issue shelf_world).2
              (LibrarySettings.mk "default" 14 light false 1 3 864000000))
    as (_ & _ & Hready).
  - vm_compute. reflexivity.
  - vm_compute. reflexivity.
  - intros book Hb. vm_compute in Hb. injection Hb as <-. split; [reflexivity|].
    simpl. lia.
  - compute_done.
  - destruct Hready as (book & member & issue & w' & _ & _ & Hrun & Hst & _ & _ & _ & _ & Hdue & _).
    + intros [H|[H|[(book & Hb & Hav)|(s & Hs & Hmax)]]].
      * vm_compute in H. discriminate.
      * vm_compute in H. discriminate.
      * vm_compute in Hb. injection Hb as <-. simpl in Hav. lia.
      * vm_compute in Hs. injection Hs as <-. vm_compute in Hmax. by apply Hmax.
    + exists issue, w'. split; [exact Hrun|]. split; [exact Hst|]. exact Hdue.
Defined.

(** C4, as stated, fails: a call for a stored book with a copy available,
    by a member id that holds no issue at all, is rejected all the same
    when no such member exists. *)
Lemma issueBook_unknown_member_counterexample :
  Book.availableCopies <$> books demo_world !! "id-2" = Some 1 /\
  LibrarySettings.maxBooksPerMember <$> settingsStore demo_world = Some 3 /\
  length (active_issues "nobody" demo_world) = 0%nat /\
  length (unreturned "nobody" demo_world) = 0%nat /\
  issueBook (Issue.mkData "id-2" "nobody" None) demo_world
    = (Rejected MemberNotFound, demo_world).
Proof. by_evaluation. Qed.

(** Once the sweep has marked the member's open loans "overdue", the
    condition of the amended C4 no longer holds: that case is the one of
    C5. *)
Lemma swept_loans_are_left_out : ~ loans_unswept "id-5" swept_world.
Proof. compute_done. Qed.

(** ** C5: the limit on concurrent loans *)

(** C5. The limit does not hold once the sweep has run.  The member holds
    three books that are not returned (the configured maximum), all marked
    "overdue" by [updateOverdueStatus]; [getMemberIssues] counts issues of
    status "issued" only, finds none, and [issueBook] hands out a fourth
    book. *)
Theorem issueBook_exceeds_limit_after_sweep :
  LibrarySettings.maxBooksPerMember <$> settingsStore swept_world = Some 3 /\
  length (unreturned "id-5" swept_world) = 3%nat /\
  length (active_issues "id-5" swept_world) = 0%nat /\
  exists issue w',
    issueBook demo_issue swept_world = (Resolved issue, w') /\
    length (unreturned "id-5" w') = 4%nat.
Proof.
  by_evaluation.
Qed.

(** ** Returning *)

Lemma returnBook_open issueId w issue book :
  issues w !! issueId = Some issue ->
  Issue.status issue <> returned ->
  books w !! Issue.bookId issue = Some book ->
  let updated :=
    Issue.close issue (now_of w)
      (if Issue.dueDate issue <? now_of w then overdue else returned)
      (clock (env w) (S (queries w))) in
  let book' :=
    Book.spread book
      (Book.mkUpdates None None None None None None
         (Some (Z.max 0 (Z.min (Book.totalCopies book) (Book.availableCopies book + 1)))))
      (clock (env w) (S (S (queries w)))) in
  returnBook issueId w =
    (Resolved updated,
     mkWorld (<[Book.id book' := book']> (books w)) (members w)
       (<[Issue.id updated := updated]> (issues w))
       (settingsStore w) (settings w) (env w) (S (S (S (queries w))))).
Proof.
  intros Hi Hst Hb updated book'.
  unfold returnBook. rewrite Hi. rewrite bool_decide_eq_false_2 by done.
  unfold_async. simpl.
  erewrite updateBookAvailability_found by (simpl; exact Hb).
  done.
Qed.

Lemma returnBook_dangling issueId w issue :
  issues w !! issueId = Some issue ->
  Issue.status issue <> returned ->
  books w !! Issue.bookId issue = None ->
  let updated :=
    Issue.close issue (now_of w)
      (if Issue.dueDate issue <? now_of w then overdue else returned)
      (clock (env w) (S (queries w))) in
  returnBook issueId w =
    (Unsettled, set_issues (insert (Issue.id updated) updated) (tick (tick w))).
Proof.
  intros Hi Hst Hb updated.
  unfold returnBook. rewrite Hi. rewrite bool_decide_eq_false_2 by done.
  unfold_async. simpl.
  rewrite updateBookAvailability_missing by (simpl; exact Hb).
  done.
Qed.

Lemma returnBook_unknown_issue issueId w :
  issues w !! issueId = None ->
  returnBook issueId w = (Rejected IssueRecordNotFound, w).
Proof. intros H. unfold returnBook. by rewrite H. Qed.

Lemma returnBook_already_returned issueId w issue :
  issues w !! issueId = Some issue -> Issue.status issue = returned ->
  returnBook issueId w = (Rejected BookAlreadyReturned, w).
Proof.
  intros H Hst. unfold returnBook. rewrite H.
  by rewrite bool_decide_eq_true_2.
Qed.

(** ** The shape of the stores *)

Lemma updateBookAvailability_well_kept bookId change w :
  well_kept w -> well_kept (updateBookAvailability bookId change w).2.
Proof.
  intros (Hb & Hi & Ho). destruct (books w !! bookId) as [b|] eqn:Hlook.
  - rewrite (updateBookAvailability_found _ _ _ _ Hlook).
    split; [|done]. by apply map_Forall_insert_2.
  - by rewrite updateBookAvailability_missing.
Qed.

Lemma in_handler_preserves {A} (P : World -> Prop) (m : Async A) w :
  P (m w).2 -> P (in_handler m w).2.
Proof. unfold in_handler. by destruct (m w) as [[a|e|] w']. Qed.

Lemma issueBook_well_kept issueData w : well_kept w -> well_kept (issueBook issueData w).2.
Proof.
  intros Hw. unfold issueBook. unfold_async. simpl.
  destruct (books w !! _) as [book|]; [|done].
  destruct (members w !! _) as [member|]; [|done].
  destruct (_ <=? 0); [done|].
  destruct (settingsStore w) as [s|]; [|done].
  destruct (_ <=? _); [done|]. simpl.
  destruct (issues w !! _) eqn:Hfresh; [done|].
  match goal with
  | |- context [updateBookAvailability ?b ?c ?w1] =>
      pose proof (updateBookAvailability_well_kept b c w1) as Hupd;
      destruct (updateBookAvailability b c w1) as [[u|e|] w2]
  end; simpl in *; apply Hupd;
    (destruct Hw as (Hb & Hi & Ho);
     split; [done|]; split; by apply map_Forall_insert_2).
Qed.

Lemma returnBook_well_kept issueId w : well_kept w -> well_kept (returnBook issueId w).2.
Proof.
  intros Hw. unfold returnBook.
  destruct (issues w !! issueId) as [issue|]; [|done].
  case_bool_decide; [done|]. unfold_async. simpl.
  match goal with
  | |- context [updateBookAvailability ?b ?c ?w1] =>
      pose proof (updateBookAvailability_well_kept b c w1) as Hupd;
      destruct (updateBookAvailability b c w1) as [[u|e|] w2]
  end; simpl in *; apply Hupd;
    (destruct Hw as (Hb & Hi & Ho);
     split; [done|]; split; by apply map_Forall_insert_2).
Qed.

Lemma updateIssue_mark_overdue_well_kept id w :
  well_kept w -> well_kept (updateIssue id Issue.mark_overdue w).2.
Proof.
  intros (Hb & Hi & Ho). unfold updateIssue.
  destruct (issues w !! id) as [issue|] eqn:Hlook; [|done].
  unfold_async. simpl. split; [done|].
  split; apply map_Forall_insert_2; done.
Qed.

Lemma updateOverdueStatus_well_kept w :
  well_kept w -> well_kept (updateOverdueStatus w).2.
Proof.
  intros Hw. unfold updateOverdueStatus.
  apply bind_preserves; [done|]. intros allIssues w1 Hw1.
  apply bind_preserves; [done|]. intros now w2 Hw2.
  apply for_each_preserves; [|done]. intros issue w3 Hw3.
  apply bind_preserves; [|done]. by apply updateIssue_mark_overdue_well_kept.
Qed.

Lemma addBook_well_kept bookData w : well_kept w -> well_kept (addBook bookData w).2.
Proof.
  intros (Hb & Hi & Ho). rewrite addBook_cases. simpl.
  destruct (books w !! _); [done|].
  split; [|done]. by apply map_Forall_insert_2.
Qed.

Lemma opened_well_kept e : well_kept (opened e).
Proof. repeat split; apply map_Forall_empty. Qed.

Lemma step_well_kept w op : well_kept w -> well_kept (step w op).
Proof.
  destruct op; simpl; auto using issueBook_well_kept, returnBook_well_kept.
Qed.

(** In a well-kept store the test of [returnBook] agrees with the data:
    an issue without a return date passes it. *)
Lemma open_issue_passes_guard w issueId issue :
  well_kept w -> issues w !! issueId = Some issue ->
  Issue.returnDate issue = None ->
  Issue.id issue = issueId /\ Issue.status issue <> returned.
Proof.
  intros (_ & Hi & Ho) Hlook Hopen. split.
  - exact (Hi _ _ Hlook).
  - exact (Ho _ _ Hlook Hopen).
Qed.

(** ** C6: a return closes the issue and brings the copy back *)

(** C6, as amended.  In a store whose records are filed under their ids and
    where no issue without a return date has the status "returned": for an
    issue stored under [issueId] on which no return is recorded, and whose
    book is still stored, with non-negative copy counts, [returnBook
    issueId] resolves with the updated issue: [returnDate] is the current
    time, the status is "returned" if the current time is at most
    [dueDate] and "overdue" otherwise, the other fields but [updatedAt]
    are kept, and the record replaces the old one; in either case the
    book's [availableCopies] becomes
    [min totalCopies (availableCopies + 1)]. *)
Theorem returnBook_brings_copy_back (issueId : string) (w : World)
    (issue : Issue.t) (book : Book.t) :
  well_kept w ->
  issues w !! issueId = Some issue ->
  Issue.returnDate issue = None ->
  books w !! Issue.bookId issue = Some book ->
  0 <= Book.totalCopies book ->
  0 <= Book.availableCopies book ->
  exists updated updatedAt w',
    returnBook issueId w = (Resolved updated, w') /\
    Issue.returnDate updated = Some (now_of w) /\
    Issue.status updated =
      (if decide (now_of w <= Issue.dueDate issue) then returned else overdue) /\
    updated = Issue.close issue (now_of w) (Issue.status updated) updatedAt /\
    issues w' = <[issueId := updated]> (issues w) /\
    exists book',
      books w' = <[Issue.bookId issue := book']> (books w) /\
      Book.totalCopies book' = Book.totalCopies book /\
      Book.availableCopies book' =
        Z.min (Book.totalCopies book) (Book.availableCopies book + 1).
Proof.
  intros Hw Hi Hopen Hb Htotal Havail.
  destruct (open_issue_passes_guard w issueId issue Hw Hi Hopen) as [Hid Hst].
  assert (Hbid : Book.id book = Issue.bookId issue).
  { destruct Hw as (Hkeyed & _). exact (Hkeyed _ _ Hb). }
  rewrite (returnBook_open issueId w issue book Hi Hst Hb).
  eexists _, _, _. split; [reflexivity|]. simpl.
  split; [done|]. split.
  { destruct (Z.ltb_spec (Issue.dueDate issue) (now_of w));
      destruct (decide _); (done || lia). }
  split; [reflexivity|]. split; [by rewrite Hid|].
  eexists. rewrite Hbid. split; [reflexivity|]. simpl.
  split; [done|]. lia.
Qed.

Lemma returnBook_brings_copy_back_witness :
  exists updated w',
    returnBook "id-10" lent_world = (Resolved updated, w') /\
    Issue.status updated = overdue /\
    Book.availableCopies <$> books lent_world !! "id-2" = Some 0 /\
    Book.availableCopies <$> books w' !! "id-2" = Some 1.
Proof.
  destruct (returnBook_brings_copy_back "id-10" lent_world
              (Issue.mk "id-10" "id-2" "id-5" "Dune" "Ada" 7776000000 8985600000
                 None issued 9504000000 10368000000)
              (Book.mk "id-2" "Dune" "Frank Herbert" "Fiction" 1965 None 1 0
                 2592000000 11232000000))
    as (updated & t & w' & Hrun & _ & Hst & _ & _ & book' & Hbooks & _ & Hav).
  - compute_done.
  - vm_compute. reflexivity.
  - reflexivity.
  - vm_compute. reflexivity.
  - simpl. lia.
  - simpl. lia.
  - exists updated, w'. split; [exact Hrun|]. split; [exact Hst|].
    split; [vm_compute; reflexivity|].
    rewrite Hbooks. simpl. rewrite lookup_insert_eq. simpl. by rewrite Hav.
Defined.

(** C6, as stated, fails: the issue "id-10" is stored, no return is
    recorded on it and its status is "issued", but its book has been
    deleted; [returnBook] does not succeed on it, and no copy comes back. *)
Lemma returnBook_deleted_book_counterexample :
  well_kept orphaned_world /\
  (exists issue,
     issues orphaned_world !! "id-10" = Some issue /\
     Issue.returnDate issue = None /\
     Issue.status issue = issued /\
     books orphaned_world !! Issue.bookId issue = None) /\
  (~ exists updated w', returnBook "id-10" orphaned_world = (Resolved updated, w')) /\
  books (returnBook "id-10" orphaned_world).2 = ∅.
Proof.
  split; [compute_done|].
  split; [eexists; repeat split; vm_compute; reflexivity|].
  split; [|vm_compute; reflexivity].
  intros (updated & w' & Hrun). vm_compute in Hrun. discriminate.
Qed.

(** ** C3: a second return *)

(** C3. A second [returnBook] is not always refused.  An issue that was
    returned late carries a return date and the status "overdue"; the
    guard of [returnBook] looks for the status "returned" only, so a second
    call on that issue resolves, overwrites the return date and puts
    another copy on the shelf while the other lent copy is still out.
    (Unknown ids and issues of status "returned" are refused:
    [returnBook_unknown_issue], [returnBook_already_returned].) *)
Theorem returnBook_accepts_second_return :
  (exists issue,
     issues late_return_world !! "id-10" = Some issue /\
     Issue.returnDate issue = Some 16416000000 /\
     Issue.status issue = overdue) /\
  Book.availableCopies <$> books late_return_world !! "id-2" = Some 4 /\
  exists issue' w',
    returnBook "id-10" late_return_world = (Resolved issue', w') /\
    Issue.returnDate issue' = Some 19008000000 /\
    Book.availableCopies <$> books w' !! "id-2" = Some 5 /\
    Issue.returnDate <$> issues w' !! "id-15" = Some None.
Proof.
  by_evaluation.
Qed.

(** ** C8: partial failure of the two writes *)

(** C8. A failure of the second write is not reported to the caller.  For
    an issue whose book has been deleted, [returnBook] writes the issue
    record (return date and status); the availability update then throws
    inside the request handler, the books are left as they were, and the
    caller's promise is neither resolved nor rejected. *)
Theorem returnBook_hides_partial_failure :
  Issue.returnDate <$> issues orphaned_world !! "id-10" = Some None /\
  books orphaned_world !! "id-2" = None /\
  exists w',
    returnBook "id-10" orphaned_world = (Unsettled, w') /\
    Issue.returnDate <$> issues w' !! "id-10" = Some (Some 12096000000) /\
    Issue.status <$> issues w' !! "id-10" = Some overdue /\
    books w' = books orphaned_world.
Proof.
  by_evaluation.
Qed.

(** ** Members: what [addMember] and [importData] guarantee *)

Lemma memberId_not_taken code (ms : gmap string Member.t) :
  (forall k m, ms !! k = Some m -> Member.memberId m <> code) ->
  memberId_taken code ms = false.
Proof.
  intros H. unfold memberId_taken. apply some_false. intros m Hm.
  apply elem_of_values in Hm as [k Hk].
  apply bool_decide_eq_false_2. by apply (H k).
Qed.

Lemma addMember_new memberData w :
  (forall k m, members w !! k = Some m ->
     Member.email m <> Member.d_email memberData /\
     Member.phone m <> Member.d_phone memberData /\
     Member.memberId m <> memberCode (env w) (S (queries w))) ->
  members w !! uuid (env w) (queries w) = None ->
  let member :=
    Member.mk (uuid (env w) (queries w)) (memberCode (env w) (S (queries w)))
      (Member.d_name memberData) (Member.d_phone memberData)
      (Member.d_email memberData) (Member.d_address memberData)
      (clock (env w) (S (S (queries w)))) (clock (env w) (S (S (S (queries w))))) in
  addMember memberData w =
    (Resolved member,
     set_members (insert (Member.id member) member) (tick (tick (tick (tick w))))).
Proof.
  intros Hnew Hfresh member. unfold addMember. unfold_async.
  rewrite !some_false.
  - simpl. rewrite Hfresh. rewrite memberId_not_taken; [done|].
    intros k m Hk. by apply (Hnew k m).
  - intros m Hm. apply elem_of_values in Hm as [k Hk].
    apply bool_decide_eq_false_2. by apply (Hnew k m).
  - intros m Hm. apply elem_of_values in Hm as [k Hk].
    apply bool_decide_eq_false_2. by apply (Hnew k m).
Qed.

Lemma addMember_rejects_duplicate memberData w k m :
  members w !! k = Some m ->
  Member.email m = Member.d_email memberData \/
  Member.phone m = Member.d_phone memberData ->
  exists e, addMember memberData w = (Rejected e, w) /\
            (e = EmailAlreadyExists \/ e = PhoneAlreadyExists).
Proof.
  intros Hk Hdup. unfold addMember. unfold_async.
  assert (Hm : m ∈ (map_to_list (members w)).*2) by (apply elem_of_values; eauto).
  destruct (some (fun m => bool_decide (Member.email m = Member.d_email memberData))
              (map_to_list (members w)).*2) eqn:Hemail; [eauto|].
  destruct Hdup as [Hdup|Hdup].
  - apply (some_false_inv _ _ m) in Hemail; [|done].
    simpl in Hemail. by rewrite bool_decide_eq_true_2 in Hemail.
  - rewrite (some_true _ _ m Hm); [eauto|]. by rewrite bool_decide_eq_true_2.
Qed.

Lemma addMember_contacts_unique memberData w :
  contacts_unique w -> contacts_unique (addMember memberData w).2.
Proof.
  intros [Hemails Hphones]. unfold addMember. unfold_async.
  destruct (some (fun m => bool_decide (Member.email m = Member.d_email memberData))
              (map_to_list (members w)).*2) eqn:Hemail; [done|].
  destruct (some (fun m => bool_decide (Member.phone m = Member.d_phone memberData))
              (map_to_list (members w)).*2) eqn:Hphone; [done|].
  simpl. destruct (members w !! _) eqn:Hfresh; [done|].
  destruct (memberId_taken _ _); [done|].
  unfold contacts_unique. simpl.
  rewrite (values_insert _ _ _ Hfresh), !fmap_cons. simpl.
  split; apply NoDup_cons; (split; [|done]); intros Hin;
    apply list_elem_of_fmap in Hin as (m & Heq & Hm).
  - apply (some_false_inv _ _ m) in Hemail; [|done].
    simpl in Hemail. by rewrite bool_decide_eq_true_2 in Hemail.
  - apply (some_false_inv _ _ m) in Hphone; [|done].
    simpl in Hphone. by rewrite bool_decide_eq_true_2 in Hphone.
Qed.

Lemma importData_contacts_unique data w : contacts_unique (importData data w).2.
Proof.
  unfold importData.
  apply bind_preserves.
  { split; simpl; rewrite map_to_list_empty; apply NoDup_nil_2. }
  intros _ w1 H1. apply bind_preserves.
  { apply for_each_preserves; [|done]. intros b w' Hw'.
    apply bind_preserves; [|done].
    unfold contacts_unique. by rewrite addBook_members. }
  intros _ w2 H2. apply bind_preserves.
  { apply for_each_preserves; [|done]. intros m w' Hw'.
    apply try_catch_preserves; [|done].
    apply bind_preserves; [|done]. by apply addMember_contacts_unique. }
  intros _ w3 H3. destruct (doc_settings data); [|done].
  apply bind_preserves; done.
Qed.

(** ** C9: uniqueness of email and phone *)

(** C9. [updateMember] does not keep emails and phones unique.  [addMember]
    rejects an email or a phone that is already stored, but [updateMember]
    resolves and stores the second member's record with the first member's
    email and phone. *)
Theorem updateMember_stores_duplicates :
  (addMember (Member.mkData "Eve" "555-0102" "ada@example.org" None) two_member_world).1
    = Rejected EmailAlreadyExists /\
  (addMember (Member.mkData "Eve" "555-0100" "eve@example.org" None) two_member_world).1
    = Rejected PhoneAlreadyExists /\
  exists member w',
    updateMember "id-9"
      (Member.mkUpdates None (Some "555-0100") (Some "ada@example.org") None)
      two_member_world = (Resolved member, w') /\
    Member.to_data <$> members w' !! "id-5"
      = Some (Member.mkData "Ada" "555-0100" "ada@example.org" None) /\
    Member.to_data <$> members w' !! "id-9"
      = Some (Member.mkData "Bob" "555-0100" "ada@example.org" None).
Proof.
  by_evaluation.
Qed.

(** ** C2: export followed by import *)

(** C2, as stated, fails: after one copy has been lent, export followed by
    import (which empties the stores before it inserts) stores the book
    under a new id with [availableCopies] back at [totalCopies], the member
    under a new id, and no issue at all. *)
Lemma export_import_counterexample :
  exists doc w',
    exportData lent_world = (Resolved doc, lent_world) /\
    importData doc lent_world = (Resolved tt, w') /\
    (fun b => (Book.id b, Book.availableCopies b)) <$> (map_to_list (books lent_world)).*2
      = [("id-2", 0)] /\
    (fun b => (Book.id b, Book.availableCopies b)) <$> (map_to_list (books w')).*2
      = [("id-14", 1)] /\
    Member.id <$> (map_to_list (members lent_world)).*2 = ["id-5"] /\
    Member.id <$> (map_to_list (members w')).*2 = ["id-17"] /\
    Issue.id <$> (map_to_list (issues lent_world)).*2 = ["id-10"] /\
    (map_to_list (issues w')).*2 = [].
Proof.
  by_evaluation.
Qed.

Lemma import_books q0 (l : list Book.t) :
  forall w,
    injective_from q0 (uuid (env w)) ->
    (q0 <= queries w)%nat ->
    (forall k, is_Some (books w !! k) ->
               exists n, (q0 <= n < queries w)%nat /\ k = uuid (env w) n) ->
    exists w',
      for_each l (fun book => addBook (Book.to_data book) ;; ret tt) w
        = (Resolved tt, w') /\
      members w' = members w /\ issues w' = issues w /\
      settingsStore w' = settingsStore w /\ settings w' = settings w /\
      env w' = env w /\ (queries w <= queries w')%nat /\
      Book.to_data <$> (map_to_list (books w')).*2 ≡ₚ
        ((fun b => restock (Book.to_data b)) <$> l)
        ++ (Book.to_data <$> (map_to_list (books w)).*2).
Proof.
  induction l as [|b l IH]; intros w Hinj Hq Hkeys.
  - exists w. by repeat split.
  - set (id := uuid (env w) (queries w)).
    assert (Hfresh : books w !! id = None).
    { destruct (books w !! id) eqn:Hb; [|done].
      destruct (Hkeys id) as (n & Hn & Heq); [by rewrite Hb|].
      apply Hinj in Heq; lia. }
    pose proof (addBook_cases (Book.to_data b) w) as Hadd.
    simpl in Hadd. fold id in Hadd. rewrite Hfresh in Hadd.
    match type of Hadd with _ = (Resolved ?r, ?wr) =>
      set (book := r) in *; set (w1 := wr) in * end.
    destruct (IH w1) as (w' & Hrun & Hm & Hi & Hs & Hc & He & Hq' & Hperm).
    { exact Hinj. }
    { simpl. lia. }
    { intros k. simpl. rewrite lookup_insert_is_Some.
      intros [<-|[_ Hk]].
      - exists (queries w). split; [lia|done].
      - destruct (Hkeys k Hk) as (n & Hn & ->). exists n. split; [lia|done]. }
    exists w'. split.
    { simpl. unfold bind at 1. unfold bind at 1. rewrite Hadd. exact Hrun. }
    do 5 (split; [done|]). split; [simpl in Hq'; lia|].
    rewrite Hperm. change (books w1) with (<[id:=book]> (books w)).
    rewrite (values_insert (books w) id book Hfresh), !fmap_cons.
    by rewrite <- Permutation_middle.
Qed.

Lemma import_members q0 (l : list Member.t) :
  forall w,
    injective_from q0 (uuid (env w)) ->
    injective_from q0 (memberCode (env w)) ->
    (q0 <= queries w)%nat ->
    (forall k m, members w !! k = Some m ->
       exists n n', (q0 <= n < queries w)%nat /\ k = uuid (env w) n /\
                    (q0 <= n' < queries w)%nat /\
                    Member.memberId m = memberCode (env w) n') ->
    NoDup (Member.email <$> l) -> NoDup (Member.phone <$> l) ->
    (forall k m x, members w !! k = Some m -> x ∈ l ->
       Member.email m <> Member.email x /\ Member.phone m <> Member.phone x) ->
    exists w',
      for_each l
        (fun member =>
           try_catch (addMember (Member.to_data member) ;; ret tt) (fun _ => ret tt)) w
        = (Resolved tt, w') /\
      books w' = books w /\ issues w' = issues w /\
      settingsStore w' = settingsStore w /\ settings w' = settings w /\
      env w' = env w /\ (queries w <= queries w')%nat /\
      Member.to_data <$> (map_to_list (members w')).*2 ≡ₚ
        (Member.to_data <$> l) ++ (Member.to_data <$> (map_to_list (members w)).*2).
Proof.
  induction l as [|x l IH]; intros w Hinj Hinjc Hq Hkeys Hemails Hphones Hnew.
  - exists w. by repeat split.
  - apply NoDup_cons in Hemails as [Hex Hemails].
    apply NoDup_cons in Hphones as [Hpx Hphones].
    set (id := uuid (env w) (queries w)).
    assert (Hfresh : members w !! id = None).
    { destruct (members w !! id) eqn:Hb; [|done].
      destruct (Hkeys id _ Hb) as (n & _ & Hn & Heq & _).
      apply Hinj in Heq; lia. }
    pose proof (addMember_new (Member.to_data x) w) as Hadd.
    simpl in Hadd. fold id in Hadd.
    match type of Hadd with _ -> _ -> _ = (Resolved ?r, ?wr) =>
      set (member := r) in *; set (w1 := wr) in * end.
    specialize (Hadd ltac:(
      intros k m Hk; destruct (Hnew k m x Hk ltac:(apply elem_of_cons; by left)) as [? ?];
      split; [done|]; split; [done|];
      destruct (Hkeys k m Hk) as (_ & n' & _ & _ & Hn' & ->);
      intros Heq; apply Hinjc in Heq; lia) Hfresh).
    destruct (IH w1) as (w' & Hrun & Hb & Hi & Hs & Hc & He & Hq' & Hperm);
      try done.
    { simpl. lia. }
    { intros k m. simpl. rewrite lookup_insert_Some.
      intros [[<- <-]|[_ Hk]].
      - exists (queries w), (S (queries w)). repeat split; lia || done.
      - destruct (Hkeys k m Hk) as (n & n' & Hn & -> & Hn' & ->).
        exists n, n'. repeat split; lia || done. }
    { intros k m y. simpl. rewrite lookup_insert_Some.
      intros [[<- <-]|[_ Hk]] Hy.
      - simpl. split.
        + intros Heq. apply Hex. rewrite Heq. by apply list_elem_of_fmap_2.
        + intros Heq. apply Hpx. rewrite Heq. by apply list_elem_of_fmap_2.
      - apply (Hnew k m y Hk). apply elem_of_cons. by right. }
    exists w'. split.
    { simpl. unfold bind at 1. unfold try_catch at 1. unfold bind at 1.
      rewrite Hadd. exact Hrun. }
    do 5 (split; [done|]). split; [simpl in Hq'; lia|].
    rewrite Hperm. change (members w1) with (<[id:=member]> (members w)).
    rewrite (values_insert (members w) id member Hfresh), !fmap_cons.
    by rewrite <- Permutation_middle.
Qed.

(** C2, as amended.  If from now on the environment never repeats an id or
    a member code, and no two stored members share an email or a phone,
    then [exportData] followed at once by [importData] of the exported
    document resolves, and afterwards: the stored books are, up to order,
    the exported ones under new ids and time stamps with [availableCopies]
    reset to [totalCopies] (title, author, category, year, ISBN and
    [totalCopies] are kept); the stored members are, up to order, the
    exported ones under new ids and member codes (name, phone, email and
    address are kept); and the settings are the exported ones with a new
    time stamp. *)
Theorem export_import_restores (w : World) :
  injective_from (queries w) (uuid (env w)) ->
  injective_from (queries w) (memberCode (env w)) ->
  contacts_unique w ->
  exists doc w',
    exportData w = (Resolved doc, w) /\
    importData doc w = (Resolved tt, w') /\
    Book.to_data <$> (map_to_list (books w')).*2 ≡ₚ
      restock <$> (Book.to_data <$> (map_to_list (books w)).*2) /\
    Member.to_data <$> (map_to_list (members w')).*2 ≡ₚ
      Member.to_data <$> (map_to_list (members w)).*2 /\
    exists now,
      settingsStore w' = Some (restamp (default (settings w) (settingsStore w)) now) /\
      settings w' = restamp (default (settings w) (settingsStore w)) now.
Proof.
  intros Hinj Hinjc [Hemails Hphones].
  exists (exported w).
  set (w0 := mkWorld ∅ ∅ ∅ (settingsStore w) (settings w) (env w) (queries w)).
  destruct (import_books (queries w) (map_to_list (books w)).*2 w0)
    as (w1 & Hrun1 & Hm1 & Hi1 & Hs1 & Hc1 & He1 & Hq1 & Hperm1).
  { exact Hinj. }
  { simpl. lia. }
  { intros k [b Hb]. simpl in Hb. by rewrite lookup_empty in Hb. }
  destruct (import_members (queries w) (map_to_list (members w)).*2 w1)
    as (w2 & Hrun2 & Hb2 & Hi2 & Hs2 & Hc2 & He2 & Hq2 & Hperm2).
  { by rewrite He1. }
  { by rewrite He1. }
  { simpl in Hq1. lia. }
  { intros k m. rewrite Hm1. simpl. by rewrite lookup_empty. }
  { exact Hemails. }
  { exact Hphones. }
  { intros k m x. rewrite Hm1. simpl. by rewrite lookup_empty. }
  eexists. split; [apply exportData_resolves|]. split.
  { unfold importData. unfold bind at 1. simpl. fold w0.
    unfold bind at 1. rewrite Hrun1.
    unfold bind at 1. rewrite Hrun2. reflexivity. }
  simpl. split.
  { rewrite Hb2, Hperm1. simpl. rewrite map_to_list_empty. simpl.
    rewrite app_nil_r, <- (list_fmap_compose Book.to_data restock). reflexivity. }
  split.
  { rewrite Hperm2, Hm1. simpl. rewrite map_to_list_empty. simpl.
    by rewrite app_nil_r. }
  exists (now_of w2). done.
Qed.

Lemma demo_env_ids_injective q0 : injective_from q0 (uuid demo_env).
Proof.
  intros n m _ _ H. simpl in H.
  apply (inj (String.app "id-")) in H. by apply (inj pretty) in H.
Qed.

Lemma demo_env_codes_injective q0 : injective_from q0 (memberCode demo_env).
Proof.
  intros n m _ _ H. simpl in H.
  apply (inj (String.app "LIB")) in H. by apply (inj pretty) in H.
Qed.

Lemma export_import_restores_witness :
  exists doc w',
    exportData lent_world = (Resolved doc, lent_world) /\
    importData doc lent_world = (Resolved tt, w') /\
    Book.to_data <$> (map_to_list (books w')).*2 ≡ₚ
      restock <$> (Book.to_data <$> (map_to_list (books lent_world)).*2) /\
    Member.to_data <$> (map_to_list (members w')).*2 ≡ₚ
      Member.to_data <$> (map_to_list (members lent_world)).*2 /\
    exists now,
      settingsStore w' =
        Some (restamp (default (settings lent_world) (settingsStore lent_world)) now) /\
      settings w' = restamp (default (settings lent_world) (settingsStore lent_world)) now.
Proof.
  apply (export_import_restores lent_world).
  - change (env lent_world) with demo_env. apply demo_env_ids_injective.
  - change (env lent_world) with demo_env. apply demo_env_codes_injective.
  - split; compute_done.
Defined.

(* ================================================================== *)
(** * Further properties of the wrapper and its callers *)

(** ** How the issue store changes *)

Lemma updateBookAvailability_issues bookId change w :
  issues (updateBookAvailability bookId change w).2 = issues w /\
  settingsStore (updateBookAvailability bookId change w).2 = settingsStore w /\
  members (updateBookAvailability bookId change w).2 = members w.
Proof.
  destruct (books w !! bookId) as [b|] eqn:Hb.
  - by rewrite (updateBookAvailability_found _ _ _ _ Hb).
  - by rewrite updateBookAvailability_missing.
Qed.

(** [issueBook] leaves the issue store alone or adds one record, of status
    "issued" and for the given member, under a key that was free; it adds
    one only to a member below the limit. *)
Lemma issueBook_issues_cases issueData w :
  settingsStore (issueBook issueData w).2 = settingsStore w /\
  (issues (issueBook issueData w).2 = issues w \/
   exists issue s,
     issues w !! Issue.id issue = None /\
     Issue.status issue = issued /\
     Issue.memberId issue = Issue.d_memberId issueData /\
     settingsStore w = Some s /\
     Z.of_nat (length (active_issues (Issue.d_memberId issueData) w))
       < LibrarySettings.maxBooksPerMember s /\
     issues (issueBook issueData w).2 = <[Issue.id issue := issue]> (issues w)).
Proof.
  unfold issueBook. unfold_async. simpl.
  destruct (books w !! _) as [book|]; [|by split; [|left]].
  destruct (members w !! _) as [member|]; [|by split; [|left]].
  destruct (_ <=? 0); [by split; [|left]|].
  destruct (settingsStore w) as [s|] eqn:Hs; [|by split; [|left]].
  destruct (Z.leb_spec (LibrarySettings.maxBooksPerMember s)
              (Z.of_nat (length (filter (is_active (Issue.d_memberId issueData))
                                   (map_to_list (issues w)).*2)))) as [Hmax|Hmax];
    [by split; [|left]|].
  simpl. destruct (issues w !! _) eqn:Hfresh; [by split; [|left]|].
  match goal with
  | |- context [updateBookAvailability ?b ?c ?w1] =>
      destruct (updateBookAvailability_issues b c w1) as (Hi & Hst & _);
      destruct (updateBookAvailability b c w1) as [[u|e|] w2]
  end; simpl in *; (split; [by rewrite Hst|]); right;
    match type of Hi with _ = <[_ := ?x]> _ => exists x, s end;
    rewrite Hi; simpl; done.
Qed.

(** [returnBook] leaves the issue store alone or replaces one record, whose
    status was not "returned", by its closed version. *)
Lemma returnBook_issues_cases issueId w :
  settingsStore (returnBook issueId w).2 = settingsStore w /\
  (issues (returnBook issueId w).2 = issues w \/
   exists existing returnDate st now,
     issues w !! issueId = Some existing /\
     Issue.status existing <> returned /\
     st <> issued /\
     issues (returnBook issueId w).2 =
       <[Issue.id existing := Issue.close existing returnDate st now]> (issues w)).
Proof.
  unfold returnBook.
  destruct (issues w !! issueId) as [existing|] eqn:Hlook; [|by split; [|left]].
  case_bool_decide as Hst; [by split; [|left]|]. unfold_async. simpl.
  match goal with
  | |- context [updateBookAvailability ?b ?c ?w1] =>
      destruct (updateBookAvailability_issues b c w1) as (Hi & Hs & _);
      destruct (updateBookAvailability b c w1) as [[u|e|] w2]
  end; simpl in *; (split; [by rewrite Hs|]); right;
    eexists existing, _, _, _; rewrite Hi; simpl;
    (split; [done|]); (split; [done|]); (split; [|reflexivity]);
    by destruct (_ <? _).
Qed.

Lemma updateIssue_mark_overdue_cases id w :
  settingsStore (updateIssue id Issue.mark_overdue w).2 = settingsStore w /\
  (issues (updateIssue id Issue.mark_overdue w).2 = issues w \/
   exists existing now,
     issues w !! id = Some existing /\
     issues (updateIssue id Issue.mark_overdue w).2 =
       <[Issue.id existing := Issue.spread existing Issue.mark_overdue now]> (issues w)).
Proof.
  unfold updateIssue. destruct (issues w !! id) as [existing|] eqn:Hlook;
    [|by split; [|left]].
  unfold_async. simpl. split; [done|]. right. by eexists _, _.
Qed.

Lemma evolves_refl i : evolves i i.
Proof. by repeat split. Qed.

Lemma evolves_trans i1 i2 i3 : evolves i1 i2 -> evolves i2 i3 -> evolves i1 i3.
Proof.
  intros (A1 & A2 & A3 & A4 & A5 & A6 & A7 & A8 & A9 & A10 & A11)
         (B1 & B2 & B3 & B4 & B5 & B6 & B7 & B8 & B9 & B10 & B11).
  unfold evolves.
  rewrite B1, B2, B3, B4, B5, B6, B7, B8, A1, A2, A3, A4, A5, A6, A7, A8.
  do 8 (split; [done|]). split; [|split].
  - intros Hr. pose proof (A9 Hr) as ->. by apply B9.
  - intros Hn. by apply B10, A10.
  - intros Hd. by apply B11, A11.
Qed.

Lemma perform_well_kept w task : well_kept w -> well_kept (perform w task).
Proof.
  destruct task; simpl;
    auto using issueBook_well_kept, returnBook_well_kept, updateOverdueStatus_well_kept.
Qed.

Lemma performs_well_kept tasks w : well_kept w -> well_kept (performs tasks w).
Proof.
  revert w. induction tasks as [|t tasks IH]; intros w Hw; [done|].
  simpl. by apply IH, perform_well_kept.
Qed.

Lemma perform_evolves w task k i :
  well_kept w -> issues w !! k = Some i ->
  exists i', issues (perform w task) !! k = Some i' /\ evolves i i'.
Proof.
  intros (Hb & Hkeyed & Hopen) Hlook. destruct task as [issueData|issueId|]; simpl.
  - destruct (issueBook_issues_cases issueData w)
      as [_ [->|(issue & s & Hfresh & _ & _ & _ & _ & ->)]].
    + eauto using evolves_refl.
    + exists i. split; [|apply evolves_refl].
      rewrite lookup_insert_ne; [done|]. intros <-. congruence.
  - destruct (returnBook_issues_cases issueId w)
      as [_ [->|(existing & t & st & now & Hex & Hst & Hst' & ->)]].
    + eauto using evolves_refl.
    + pose proof (Hkeyed _ _ Hex) as Hid. simpl in Hid. rewrite Hid.
      destruct (decide (issueId = k)) as [->|Hne].
      * rewrite lookup_insert_eq. simplify_eq. eexists. split; [done|].
        unfold evolves. simpl. do 8 (split; [done|]). by repeat split.
      * rewrite lookup_insert_ne by done. eauto using evolves_refl.
  - destruct (updateOverdueStatus_flips w Hkeyed)
      as (w1 & Hrun & _ & _ & _ & _ & _ & Hflip).
    rewrite Hrun. simpl. specialize (Hflip k). rewrite Hlook in Hflip.
    destruct (decide (is_overdue (now_of w) i)) as [[Hst _]|_].
    + destruct Hflip as [t Ht]. eexists. split; [exact Ht|].
      unfold evolves. simpl. do 8 (split; [done|]).
      split; [by rewrite Hst|]. split; [done|done].
    + eauto using evolves_refl.
Qed.

(** ** X1: issue records are never lost or rewritten by the workflow *)

(** In a store filled through the operations, every stored issue is still
    stored after any sequence of [issueBook], [returnBook] and
    [updateOverdueStatus] calls, with the same id, book, member, titles,
    issue date, due date and creation date; a record of status "returned"
    is unchanged, a status other than "issued" has not gone back to
    "issued", and a return date once set is still set. *)
Theorem issue_records_only_move_forward (tasks : list Task) (w : World)
    (k : string) (i : Issue.t) :
  well_kept w -> issues w !! k = Some i ->
  exists i', issues (performs tasks w) !! k = Some i' /\ evolves i i'.
Proof.
  revert w i. induction tasks as [|t tasks IH]; intros w i Hw Hlook.
  - exists i. split; [done|apply evolves_refl].
  - destruct (perform_evolves w t k i Hw Hlook) as (i1 & Hlook1 & Hev1).
    destruct (IH (perform w t) i1 (perform_well_kept w t Hw) Hlook1)
      as (i2 & Hlook2 & Hev2).
    exists i2. split; [exact Hlook2|]. by apply (evolves_trans i i1 i2).
Qed.

Lemma issue_records_only_move_forward_witness :
  exists i',
    issues (performs [TaskSweep; TaskReturn "id-10"; TaskReturn "id-10";
                      TaskIssue demo_issue] lent_world) !! "id-10" = Some i' /\
    evolves (Issue.mk "id-10" "id-2" "id-5" "Dune" "Ada" 7776000000 8985600000
               None issued 9504000000 10368000000) i'.
Proof.
  apply (issue_records_only_move_forward
           [TaskSweep; TaskReturn "id-10"; TaskReturn "id-10"; TaskIssue demo_issue]
           lent_world "id-10").
  - compute_done.
  - vm_compute. reflexivity.
Defined.

(** ** Counting the loans of a member *)

Lemma count_insert_fresh {A} (P : A -> Prop) `{forall x, Decision (P x)}
    (m : gmap string A) k x :
  m !! k = None ->
  length (filter P (map_to_list (<[k:=x]> m)).*2) =
  length (filter P (x :: (map_to_list m).*2)).
Proof. intros Hk. by rewrite (values_insert m k x Hk). Qed.

Lemma count_insert_le {A} (P : A -> Prop) `{forall x, Decision (P x)}
    (m : gmap string A) k x :
  ~ P x ->
  (length (filter P (map_to_list (<[k:=x]> m)).*2)
   <= length (filter P (map_to_list m).*2))%nat.
Proof.
  intros Hx. destruct (m !! k) as [y|] eqn:Hk.
  - rewrite <- (insert_delete_eq m k x).
    rewrite (count_insert_fresh P (delete k m) k x) by apply lookup_delete_eq.
    rewrite filter_cons_False by done.
    rewrite <- (map_to_list_delete m k y Hk), fmap_cons, filter_cons.
    cbn [snd]. destruct (decide (P y)); cbn [length]; lia.
  - rewrite (count_insert_fresh P m k x Hk). by rewrite filter_cons_False.
Qed.

Lemma issueBook_within_limit issueData memberId s w :
  within_limit memberId s w -> within_limit memberId s (issueBook issueData w).2.
Proof.
  intros [Hs Hle].
  destruct (issueBook_issues_cases issueData w)
    as [Hs' [Hi|(issue & s' & Hfresh & Hst & Hmem & Hs'' & Hlt & Hi)]];
    unfold within_limit, active_issues; rewrite Hs', Hi; [done|].
  split; [done|]. simplify_eq.
  rewrite (count_insert_fresh _ _ _ _ Hfresh), filter_cons.
  unfold active_issues in *.
  destruct (decide (is_active memberId issue)) as [[Hm _]|_]; [|done].
  cbn [length]. rewrite Hmem in Hm. subst memberId. lia.
Qed.

Lemma returnBook_within_limit issueId memberId s w :
  within_limit memberId s w -> within_limit memberId s (returnBook issueId w).2.
Proof.
  intros [Hs Hle].
  destruct (returnBook_issues_cases issueId w)
    as [Hs' [Hi|(existing & t & st & now & _ & _ & Hst & Hi)]];
    unfold within_limit, active_issues; rewrite Hs', Hi; [done|].
  split; [done|]. unfold active_issues in Hle.
  pose proof (count_insert_le (is_active memberId) (issues w) (Issue.id existing)
                (Issue.close existing t st now)) as Hcount.
  specialize (Hcount ltac:(by intros [_ ?])). lia.
Qed.

Lemma updateIssue_mark_overdue_within_limit id memberId s w :
  within_limit memberId s w ->
  within_limit memberId s (updateIssue id Issue.mark_overdue w).2.
Proof.
  intros [Hs Hle].
  destruct (updateIssue_mark_overdue_cases id w)
    as [Hs' [Hi|(existing & now & _ & Hi)]];
    unfold within_limit, active_issues; rewrite Hs', Hi; [done|].
  split; [done|]. unfold active_issues in Hle.
  pose proof (count_insert_le (is_active memberId) (issues w) (Issue.id existing)
                (Issue.spread existing Issue.mark_overdue now)) as Hcount.
  specialize (Hcount ltac:(by intros [_ ?])). lia.
Qed.

Lemma updateOverdueStatus_within_limit memberId s w :
  within_limit memberId s w -> within_limit memberId s (updateOverdueStatus w).2.
Proof.
  intros Hw. unfold updateOverdueStatus.
  apply bind_preserves; [done|]. intros allIssues w1 Hw1.
  apply bind_preserves; [done|]. intros now w2 Hw2.
  apply for_each_preserves; [|done]. intros issue w3 Hw3.
  apply bind_preserves; [|done]. by apply updateIssue_mark_overdue_within_limit.
Qed.

(** ** X2: the number of "issued" loans of a member stays within the limit *)

(** With the settings record stored, a member who has at most
    [maxBooksPerMember] issues of status "issued" still has at most that
    many after any sequence of [issueBook], [returnBook] and
    [updateOverdueStatus] calls, and the settings record is untouched. *)
Theorem issued_loans_stay_within_limit (tasks : list Task) (w : World)
    (memberId : string) (s : LibrarySettings.t) :
  settingsStore w = Some s ->
  Z.of_nat (length (active_issues memberId w)) <= LibrarySettings.maxBooksPerMember s ->
  settingsStore (performs tasks w) = Some s /\
  Z.of_nat (length (active_issues memberId (performs tasks w)))
    <= LibrarySettings.maxBooksPerMember s.
Proof.
  intros Hs Hle. change (within_limit memberId s (performs tasks w)).
  assert (Hw : within_limit memberId s w) by done. clear Hs Hle.
  revert w Hw. induction tasks as [|t tasks IH]; intros w Hw; [done|].
  simpl. apply IH. destruct t; simpl;
    auto using issueBook_within_limit, returnBook_within_limit,
               updateOverdueStatus_within_limit.
Qed.

Lemma issued_loans_stay_within_limit_witness :
  let tasks := [TaskIssue demo_issue; TaskIssue demo_issue; TaskIssue demo_issue;
                TaskIssue demo_issue; TaskReturn "id-10"; TaskIssue demo_issue] in
  length (active_issues "id-5" (performs tasks shelf_world)) = 3%nat /\
  Z.of_nat (length (active_issues "id-5" (performs tasks shelf_world))) <= 3.
Proof.
  split; [vm_compute; reflexivity|].
  apply (issued_loans_stay_within_limit _ shelf_world "id-5"
           (LibrarySettings.mk "default" 14 light false 1 3 864000000)).
  - vm_compute. reflexivity.
  - vm_compute. discriminate.
Defined.

(** ** X3: issuing a book and returning it *)

(** When [issueBook] succeeds on a book filed under its id with
    [0 < availableCopies <= totalCopies], the book has one copy less; a
    [returnBook] of the new issue then succeeds and the book has its
    former copy counts and data again. *)
Theorem issue_then_return_restores_copies (issueData : Issue.data) (w : World)
    (s : LibrarySettings.t) (book : Book.t) (member : Member.t) :
  settingsStore w = Some s ->
  books w !! Issue.d_bookId issueData = Some book ->
  Book.id book = Issue.d_bookId issueData ->
  members w !! Issue.d_memberId issueData = Some member ->
  0 < Book.availableCopies book <= Book.totalCopies book ->
  Z.of_nat (length (active_issues (Issue.d_memberId issueData) w))
    < LibrarySettings.maxBooksPerMember s ->
  issues w !! uuid (env w) (S (queries w)) = None ->
  exists issue w1 closed w2 book1 book2,
    issueBook issueData w = (Resolved issue, w1) /\
    books w1 !! Issue.d_bookId issueData = Some book1 /\
    Book.availableCopies book1 = Book.availableCopies book - 1 /\
    returnBook (Issue.id issue) w1 = (Resolved closed, w2) /\
    books w2 !! Issue.d_bookId issueData = Some book2 /\
    Book.to_data book2 = Book.to_data book /\
    Book.id book2 = Book.id book.
Proof.
  intros Hs Hb Hid Hm [Hpos Hle] Hmax Hfresh.
  pose proof (issueBook_accepted issueData w s book member Hs Hb Hm Hpos Hmax Hfresh)
    as Hissue.
  simpl in Hissue.
  match type of Hissue with _ = (Resolved ?i, ?wi) =>
    set (issue := i) in *; set (w1 := wi) in * end.
  assert (Hb1 : books w1 !! Issue.bookId issue
                = Some (Book.spread book
                          (Book.mkUpdates None None None None None None
                             (Some (Z.max 0 (Z.min (Book.totalCopies book)
                                                   (Book.availableCopies book + -1)))))
                          (clock (env w) (S (S (S (S (queries w)))))))).
  { simpl. rewrite Hid. apply lookup_insert_eq. }
  pose proof (returnBook_open (Issue.id issue) w1 issue _
                ltac:(simpl; apply lookup_insert_eq) ltac:(done) Hb1) as Hret.
  simpl in Hret.
  eexists issue, w1, _, _, _, _.
  split; [exact Hissue|]. split; [exact Hb1|]. split; [simpl; lia|].
  split; [exact Hret|]. simpl. rewrite Hid.
  split; [apply lookup_insert_eq|]. split; [|done].
  unfold Book.to_data. simpl. f_equal. lia.
Qed.

Lemma issue_then_return_restores_copies_witness :
  exists issue w1 closed w2 book1 book2,
    issueBook demo_issue demo_world = (Resolved issue, w1) /\
    books w1 !! "id-2" = Some book1 /\
    Book.availableCopies book1 = 1 - 1 /\
    returnBook (Issue.id issue) w1 = (Resolved closed, w2) /\
    books w2 !! "id-2" = Some book2 /\
    Book.to_data book2 = restock demo_book /\
    Book.id book2 = "id-2".
Proof.
  apply (issue_then_return_restores_copies demo_issue demo_world
           (LibrarySettings.mk "default" 14 light false 1 3 864000000)
           (Book.mk "id-2" "Dune" "Frank Herbert" "Fiction" 1965 None 1 1
              2592000000 3456000000)
           (Member.mk "id-5" "LIB6" "Ada" "555-0100" "ada@example.org" None
              6048000000 6912000000)).
  - vm_compute. reflexivity.
  - vm_compute. reflexivity.
  - reflexivity.
  - vm_compute. reflexivity.
  - simpl. lia.
  - vm_compute. reflexivity.
  - vm_compute. reflexivity.
Defined.

(** ** The dashboard statistics *)

Lemma statuses_partition (l : list Issue.t) :
  length l =
  (length (filter (fun issue => Issue.status issue = issued) l) +
   length (filter (fun issue => Issue.status issue = returned \/
                                Issue.status issue = overdue) l))%nat.
Proof.
  induction l as [|i l IH]; [done|].
  rewrite !filter_cons. cbn [length]. rewrite IH.
  repeat case_decide; cbn [length]; destruct (Issue.status i);
    first [lia | exfalso; intuition congruence].
Qed.

Lemma returns_are_not_issued (l : list Issue.t) :
  filter (fun issue => Issue.status issue = returned \/ Issue.status issue = overdue) l =
  filter (fun issue => Issue.status issue <> issued) l.
Proof.
  induction l as [|i l IH]; [done|].
  rewrite !filter_cons, IH.
  repeat case_decide; destruct (Issue.status i);
    first [done | exfalso; intuition congruence].
Qed.

Lemma overdue_among_issued now (l : list Issue.t) :
  (length (filter (is_overdue now) l)
   <= length (filter (fun issue => Issue.status issue = issued) l))%nat.
Proof.
  induction l as [|i l IH]; [done|].
  rewrite !filter_cons.
  destruct (decide (is_overdue now i)) as [[Hst _]|_];
    destruct (decide (Issue.status i = issued)); cbn [length]; (lia || done).
Qed.

Lemma available_sum_bounds (l : list Book.t) a b :
  Forall book_ok l -> 0 <= a <= b ->
  0 <= foldl (fun sum book => sum + Book.availableCopies book) a l
    <= foldl (fun sum book => sum + Book.totalCopies book) b l.
Proof.
  intros Hl. revert a b. induction Hl as [|x l Hx Hl IH]; intros a b Hab; [done|].
  simpl. apply IH. unfold book_ok in Hx. lia.
Qed.

(** ** X4: the dashboard counters agree with each other *)

(** [getDashboardStats] resolves and only reads the clock.  Its counters
    are those of the stores: [totalBooks], [totalMembers] and [totalIssues]
    are the sizes of the three stores, every issue counts either as issued
    or as returned ([totalIssues = booksIssued + totalReturns]), the
    overdue ones are among the issued ones, and when every book is within
    its bounds [booksAvailable] lies between 0 and the sum of the
    [totalCopies] that the dashboard page divides by. *)
Theorem getDashboardStats_consistent (w : World) :
  exists stats,
    getDashboardStats w = (Resolved stats, tick w) /\
    DashboardStats.totalBooks stats = Z.of_nat (size (books w)) /\
    DashboardStats.totalMembers stats = Z.of_nat (size (members w)) /\
    DashboardStats.totalIssues stats = Z.of_nat (size (issues w)) /\
    DashboardStats.totalIssues stats =
      DashboardStats.booksIssued stats + DashboardStats.totalReturns stats /\
    0 <= DashboardStats.overdueCount stats <= DashboardStats.booksIssued stats /\
    (books_ok w ->
     0 <= DashboardStats.booksAvailable stats
       <= totalCopies_of (map_to_list (books w)).*2).
Proof.
  eexists. split; [reflexivity|]. simpl.
  rewrite !length_fmap, !length_map_to_list.
  do 3 (split; [done|]). split; [|split].
  - rewrite <- (length_map_to_list (issues w)), <- (length_fmap snd).
    rewrite (statuses_partition (map_to_list (issues w)).*2). lia.
  - pose proof (overdue_among_issued (now_of w) (map_to_list (issues w)).*2).
    unfold now_of in *. lia.
  - intros Hok. apply available_sum_bounds; [|lia].
    apply Forall_forall. intros b Hb. apply elem_of_values in Hb as [k Hk].
    exact (Hok _ _ Hk).
Qed.

Lemma getDashboardStats_consistent_witness :
  exists stats,
    getDashboardStats late_return_world = (Resolved stats, tick late_return_world) /\
    DashboardStats.totalIssues stats = 2 /\
    DashboardStats.booksIssued stats = 1 /\
    DashboardStats.totalReturns stats = 1 /\
    0 <= DashboardStats.booksAvailable stats <= 5.
Proof.
  destruct (getDashboardStats_consistent late_return_world)
    as (stats & Hrun & _ & _ & _ & _ & _ & Hsum).
  exists stats. split; [exact Hrun|].
  vm_compute in Hrun. injection Hrun as <-.
  do 3 (split; [reflexivity|]).
  apply (Hsum ltac:(compute_done)).
Defined.

(** ** X5: right after the sweep the dashboard counts no overdue book *)

(** On a store whose issues are filed under their ids, after
    [updateOverdueStatus] a [getOverdueBooks] or [getDashboardStats] that
    reads the same current time finds no overdue book: the counter looks
    for issues of status "issued" past their due date, and the sweep has
    given just these the status "overdue". *)
Theorem no_overdue_count_after_sweep (w : World) :
  issues_keyed w ->
  exists w1,
    updateOverdueStatus w = (Resolved tt, w1) /\
    (now_of w1 = now_of w ->
     getOverdueBooks w1 = (Resolved [], tick w1) /\
     exists stats,
       getDashboardStats w1 = (Resolved stats, tick w1) /\
       DashboardStats.overdueCount stats = 0 /\
       DashboardStats.totalReturns stats =
         Z.of_nat (length (filter (fun issue => Issue.status issue <> issued)
                                  (map_to_list (issues w1)).*2))).
Proof.
  intros Hkeyed.
  destruct (updateOverdueStatus_flips w Hkeyed)
    as (w1 & Hrun & _ & _ & _ & _ & _ & Hflip).
  exists w1. split; [exact Hrun|]. intros Hnow.
  assert (Hnone : filter (is_overdue (now_of w1)) (map_to_list (issues w1)).*2 = []).
  { apply elem_of_nil_inv. intros x Hx.
    apply list_elem_of_filter in Hx as [Hov Hx].
    apply elem_of_values in Hx as [k Hk].
    specialize (Hflip k). rewrite Hnow in Hov.
    destruct (issues w !! k) as [i|]; [|congruence].
    destruct (decide (is_overdue (now_of w) i)) as [?|Hnov].
    - destruct Hflip as [t Ht]. rewrite Hk in Ht. simplify_eq.
      by destruct Hov.
    - rewrite Hk in Hflip. by simplify_eq. }
  split.
  - unfold getOverdueBooks. unfold_async. simpl. unfold now_of in Hnone.
    by rewrite Hnone.
  - eexists. split; [reflexivity|]. simpl. unfold now_of in Hnone.
    rewrite Hnone. split; [done|].
    by rewrite returns_are_not_issued.
Qed.

Lemma no_overdue_count_after_sweep_witness :
  exists w1 stats,
    updateOverdueStatus frozen_world = (Resolved tt, w1) /\
    getDashboardStats w1 = (Resolved stats, tick w1) /\
    DashboardStats.overdueCount stats = 0 /\
    DashboardStats.totalReturns stats = 1 /\
    length (unreturned "id-5" w1) = 2%nat.
Proof.
  destruct (no_overdue_count_after_sweep frozen_world ltac:(compute_done))
    as (w1 & Hrun & Hafter).
  vm_compute in Hrun. injection Hrun as <-.
  destruct (Hafter ltac:(vm_compute; reflexivity)) as (_ & stats & Hstats & Hzero & _).
  eexists _, stats. split; [vm_compute; reflexivity|].
  split; [exact Hstats|]. split; [exact Hzero|].
  vm_compute in Hstats. injection Hstats as <-.
  split; vm_compute; reflexivity.
Defined.

(** ** Whole sessions *)

Ltac solve_tidy :=
  repeat match goal with
         | H : tidy _ |- _ => destruct H as ((? & ? & ?) & ? & (? & ?))
         end;
  unfold tidy, well_kept, books_keyed, issues_keyed, open_issues_ok,
    members_keyed, settings_loaded in *;
  simpl in *;
  repeat match goal with |- _ /\ _ => split end;
  first [ done
        | apply map_Forall_empty
        | apply map_Forall_insert_2; done
        | apply map_Forall_delete; done ].

Lemma updateBook_tidy id updates w : tidy w -> tidy (updateBook id updates w).2.
Proof.
  intros Hw. unfold updateBook. unfold_async.
  destruct (books w !! id); [|done]. solve_tidy.
Qed.

Lemma updateBookAvailability_tidy bookId change w :
  tidy w -> tidy (updateBookAvailability bookId change w).2.
Proof.
  intros Hw. destruct (books w !! bookId) as [b|] eqn:Hlook.
  - rewrite (updateBookAvailability_found _ _ _ _ Hlook). solve_tidy.
  - by rewrite updateBookAvailability_missing.
Qed.

Lemma issueBook_tidy issueData w : tidy w -> tidy (issueBook issueData w).2.
Proof.
  intros Hw. unfold issueBook. unfold_async. simpl.
  destruct (books w !! _) as [book|]; [|done].
  destruct (members w !! _) as [member|]; [|done].
  destruct (_ <=? 0); [done|].
  destruct (settingsStore w) as [s|] eqn:Hs; [|done].
  destruct (_ <=? _); [done|]. simpl.
  destruct (issues w !! _) eqn:Hfresh; [done|].
  match goal with
  | |- context [updateBookAvailability ?b ?c ?w1] =>
      pose proof (updateBookAvailability_tidy b c w1) as Hupd;
      destruct (updateBookAvailability b c w1) as [[u|e|] w2]
  end; simpl in *; apply Hupd; solve_tidy.
Qed.

Lemma returnBook_tidy issueId w : tidy w -> tidy (returnBook issueId w).2.
Proof.
  intros Hw. unfold returnBook.
  destruct (issues w !! issueId) as [issue|]; [|done].
  case_bool_decide; [done|]. unfold_async. simpl.
  match goal with
  | |- context [updateBookAvailability ?b ?c ?w1] =>
      pose proof (updateBookAvailability_tidy b c w1) as Hupd;
      destruct (updateBookAvailability b c w1) as [[u|e|] w2]
  end; simpl in *; apply Hupd; solve_tidy.
Qed.

Lemma updateOverdueStatus_tidy w : tidy w -> tidy (updateOverdueStatus w).2.
Proof.
  intros Hw. unfold updateOverdueStatus.
  apply bind_preserves; [done|]. intros allIssues w1 Hw1.
  apply bind_preserves; [solve_tidy|]. intros now w2 Hw2.
  apply for_each_preserves; [|done]. intros issue w3 Hw3.
  apply bind_preserves; [|done]. unfold updateIssue.
  destruct (issues w3 !! _); [|done]. unfold_async. solve_tidy.
Qed.

Lemma addBook_tidy bookData w : tidy w -> tidy (addBook bookData w).2.
Proof.
  intros Hw. rewrite addBook_cases. simpl.
  destruct (books w !! _); solve_tidy.
Qed.

Lemma addMember_tidy memberData w : tidy w -> tidy (addMember memberData w).2.
Proof.
  intros Hw. unfold addMember. unfold_async.
  destruct (some _ _); [done|]. destruct (some _ _); [done|]. simpl.
  destruct (members w !! _); [solve_tidy|].
  destruct (memberId_taken _ _); solve_tidy.
Qed.

Lemma updateMember_tidy id updates w : tidy w -> tidy (updateMember id updates w).2.
Proof.
  intros Hw. unfold updateMember. unfold_async.
  destruct (members w !! id); [|done]. solve_tidy.
Qed.

Lemma saveSettings_tidy s w : tidy w -> tidy (saveSettings s w).2.
Proof. intros Hw. unfold saveSettings. unfold_async. solve_tidy. Qed.

Lemma clearAllData_tidy w : tidy w -> tidy (clearAllData w).2.
Proof. intros Hw. unfold clearAllData. solve_tidy. Qed.

Lemma importData_tidy data w : tidy w -> tidy (importData data w).2.
Proof.
  intros Hw. unfold importData.
  apply bind_preserves; [by apply clearAllData_tidy|].
  intros _ w1 H1. apply bind_preserves.
  { apply for_each_preserves; [|done]. intros b w' Hw'.
    apply bind_preserves; [by apply addBook_tidy|done]. }
  intros _ w2 H2. apply bind_preserves.
  { apply for_each_preserves; [|done]. intros m w' Hw'.
    apply try_catch_preserves; [|done].
    apply bind_preserves; [by apply addMember_tidy|done]. }
  intros _ w3 H3. destruct (doc_settings data); [|done].
  apply bind_preserves; [by apply saveSettings_tidy|done].
Qed.

Lemma exec_tidy w call : tidy w -> tidy (exec w call).
Proof.
  intros Hw. destruct call; simpl;
    auto using addBook_tidy, updateBook_tidy, addMember_tidy, updateMember_tidy,
      issueBook_tidy, returnBook_tidy, updateOverdueStatus_tidy, saveSettings_tidy,
      importData_tidy, clearAllData_tidy;
    solve_tidy.
Qed.

Lemma session_tidy calls w : tidy w -> tidy (session calls w).
Proof.
  revert w. induction calls as [|c calls IH]; intros w Hw; [done|].
  simpl. by apply IH, exec_tidy.
Qed.

Lemma opened_tidy e : tidy (opened e).
Proof. solve_tidy. Qed.

(** ** X6: what every session keeps *)

(** From a state in which every record is filed under its own id, no issue
    without a return date has the status "returned", and the settings
    record is stored, equal to the cached one and under the id 'default'
    (as it is once [loadSettings] has finished), any sequence of calls on
    the wrapper, each run to its end before the next - adding, updating
    and deleting books and members, issuing, returning, the sweep,
    statistics, settings, export, import, clearing - leads to a state of
    the same kind; so [issueBook] never fails there on missing settings. *)
Theorem sessions_keep_the_stores_tidy (calls : list Call) (w0 : World) :
  tidy w0 ->
  let w := session calls w0 in
  well_kept w /\ members_keyed w /\
  settingsStore w = Some (settings w) /\
  LibrarySettings.id (settings w) = "default" /\
  forall issueData, (issueBook issueData w).1 <> Rejected TypeError.
Proof.
  intros Hstart w.
  destruct (session_tidy calls w0 Hstart) as (Hk & Hm & Hs & Hid).
  fold w in Hk, Hm, Hs, Hid. do 4 (split; [done|]).
  intros issueData. unfold issueBook. unfold_async. rewrite Hs. simpl.
  destruct (books w !! _); [|done]. destruct (members w !! _); [|done].
  destruct (_ <=? 0); [done|]. destruct (_ <=? _); [done|]. simpl.
  destruct (issues w !! _); [done|]. simpl.
  by destruct (updateBookAvailability _ _ _) as [[u|err|] w2].
Qed.

Lemma sessions_keep_the_stores_tidy_witness :
  let w := session [CallIssueBook demo_issue; CallDeleteBook "id-2";
                    CallReturnBook "id-10"; CallUpdateOverdueStatus;
                    CallSaveSettings (LibrarySettings.mkUpdates None (Some dark) None None (Some 1));
                    CallImportData (exported lent_world)] shelf_world in
  tidy shelf_world /\
  well_kept w /\ settingsStore w = Some (settings w) /\
  (issueBook demo_issue w).1 <> Rejected TypeError.
Proof.
  intros w.
  assert (Hstart : tidy shelf_world).
  { unfold tidy. split; [compute_done|]. split; [compute_done|].
    split; vm_compute; reflexivity. }
  destruct (sessions_keep_the_stores_tidy
              [CallIssueBook demo_issue; CallDeleteBook "id-2";
               CallReturnBook "id-10"; CallUpdateOverdueStatus;
               CallSaveSettings (LibrarySettings.mkUpdates None (Some dark) None None (Some 1));
               CallImportData (exported lent_world)] shelf_world Hstart)
    as (Hk & _ & Hs & _ & Hissue).
  split; [exact Hstart|].
  split; [exact Hk|]. split; [exact Hs|]. apply Hissue.
Defined.

(** ** X7: when [addMember] fails and what it stores *)

(** [addMember] is rejected with 'Email already exists' when a stored member
    has the email, else with 'Phone number already exists' when a stored
    member has the phone, and changes nothing in either case.  Otherwise,
    the generated id and member code being free, it resolves with a member
    carrying exactly the given name, phone, email and address under the
    generated id and code, and adds this one record to the member store. *)
Theorem addMember_outcome (memberData : Member.data) (w : World) :
  members w !! uuid (env w) (queries w) = None ->
  (forall k m, members w !! k = Some m ->
               Member.memberId m <> memberCode (env w) (S (queries w))) ->
  let emailTaken :=
    exists k m, members w !! k = Some m /\ Member.email m = Member.d_email memberData in
  let phoneTaken :=
    exists k m, members w !! k = Some m /\ Member.phone m = Member.d_phone memberData in
  (emailTaken -> addMember memberData w = (Rejected EmailAlreadyExists, w)) /\
  (~ emailTaken -> phoneTaken ->
   addMember memberData w = (Rejected PhoneAlreadyExists, w)) /\
  (~ emailTaken -> ~ phoneTaken ->
   exists member w',
     addMember memberData w = (Resolved member, w') /\
     Member.to_data member = memberData /\
     Member.id member = uuid (env w) (queries w) /\
     Member.memberId member = memberCode (env w) (S (queries w)) /\
     members w' = <[Member.id member := member]> (members w) /\
     books w' = books w /\ issues w' = issues w).
Proof.
  intros Hfresh Hcode emailTaken phoneTaken. split; [|split].
  - intros (k & m & Hk & Hemail). unfold addMember. unfold_async.
    rewrite (some_true _ _ m); [done| |by rewrite bool_decide_eq_true_2].
    apply elem_of_values. eauto.
  - intros Hno (k & m & Hk & Hphone). unfold addMember. unfold_async.
    rewrite some_false.
    + rewrite (some_true _ _ m); [done| |by rewrite bool_decide_eq_true_2].
      apply elem_of_values. eauto.
    + intros m' Hm'. apply elem_of_values in Hm' as [k' Hk'].
      apply bool_decide_eq_false_2. intros Heq. apply Hno. by exists k', m'.
  - intros Hnoe Hnop.
    pose proof (addMember_new memberData w) as Hadd. simpl in Hadd.
    rewrite Hadd; [|intros k m Hk; split; [|split]|done].
    + eexists _, _. split; [reflexivity|]. simpl. split; [by destruct memberData|done].
    + intros Heq. apply Hnoe. by exists k, m.
    + intros Heq. apply Hnop. by exists k, m.
    + by apply (Hcode k m).
Qed.

Lemma addMember_outcome_witness :
  addMember (Member.mkData "Eve" "555-0101" "eve@example.org" None) two_member_world
    = (Rejected PhoneAlreadyExists, two_member_world) /\
  exists member w',
    addMember (Member.mkData "Eve" "555-0102" "eve@example.org" None) two_member_world
      = (Resolved member, w') /\
    Member.id member = "id-13".
Proof.
  assert (Hfresh : members two_member_world
                   !! uuid (env two_member_world) (queries two_member_world) = None)
    by (vm_compute; reflexivity).
  assert (Hcode : map_Forall (fun _ m => Member.memberId m
            <> memberCode (env two_member_world) (S (queries two_member_world)))
            (members two_member_world)) by compute_done.
  assert (Hemail : map_Forall (fun _ m => Member.email m <> "eve@example.org")
                     (members two_member_world)) by compute_done.
  assert (Hphone : map_Forall (fun _ m => Member.phone m <> "555-0102")
                     (members two_member_world)) by compute_done.
  split.
  - destruct (addMember_outcome (Member.mkData "Eve" "555-0101" "eve@example.org" None)
                two_member_world Hfresh Hcode) as (_ & Hrej & _).
    apply Hrej.
    + intros (k & m & Hk & Heq). exact (Hemail k m Hk Heq).
    + exists "id-9". eexists. split; vm_compute; reflexivity.
  - destruct (addMember_outcome (Member.mkData "Eve" "555-0102" "eve@example.org" None)
                two_member_world Hfresh Hcode) as (_ & _ & Hnew).
    destruct Hnew as (member & w' & Hrun & _ & Hid & _).
    + intros (k & m & Hk & Heq). exact (Hemail k m Hk Heq).
    + intros (k & m & Hk & Heq). exact (Hphone k m Hk Heq).
    + exists member, w'. split; [exact Hrun|]. rewrite Hid. vm_compute. reflexivity.
Defined.

(** ** What an import leaves behind *)

Lemma for_each_preserves_in {A} (P : World -> Prop) (l : list A) (f : A -> Async unit) :
  (forall x, x ∈ l -> forall w, P w -> P (f x w).2) ->
  forall w, P w -> P (for_each l f w).2.
Proof.
  induction l as [|x l IH]; intros Hf w Hw; simpl; [done|].
  apply bind_preserves.
  - apply Hf; [apply elem_of_cons; by left|done].
  - intros _ w' Hw'. apply IH; [|done].
    intros y Hy. apply Hf, elem_of_cons. by right.
Qed.

Lemma addBook_drawn_from data b w :
  b ∈ default [] (doc_books data) ->
  drawn_from data w -> drawn_from data (addBook (Book.to_data b) w).2.
Proof.
  intros Hb (Hi & Hbooks & Hmembers). rewrite addBook_cases. simpl.
  destruct (books w !! _); [done|].
  split; [done|]. split; [|done].
  apply map_Forall_insert_2; [|done]. by exists b.
Qed.

Lemma addMember_drawn_from data m w :
  m ∈ default [] (doc_members data) ->
  drawn_from data w -> drawn_from data (addMember (Member.to_data m) w).2.
Proof.
  intros Hm (Hi & Hbooks & Hmembers). unfold addMember. unfold_async.
  destruct (some _ _); [done|]. destruct (some _ _); [done|]. simpl.
  destruct (members w !! _); [done|].
  destruct (memberId_taken _ _); [done|].
  split; [done|]. split; [done|].
  apply map_Forall_insert_2; [|done]. by exists m.
Qed.

Lemma importData_drawn_from data w : drawn_from data (importData data w).2.
Proof.
  unfold importData.
  apply bind_preserves.
  { repeat split; apply map_Forall_empty. }
  intros _ w1 H1. apply bind_preserves.
  { apply for_each_preserves_in; [|done]. intros b Hb w' Hw'.
    apply bind_preserves; [by apply addBook_drawn_from|done]. }
  intros _ w2 H2. apply bind_preserves.
  { apply for_each_preserves_in; [|done]. intros m Hm w' Hw'.
    apply try_catch_preserves; [|done].
    apply bind_preserves; [by apply addMember_drawn_from|done]. }
  intros _ w3 H3. destruct (doc_settings data); [|done].
  apply bind_preserves; done.
Qed.

Lemma importData_without_settings data w :
  doc_settings data = None ->
  settingsStore (importData data w).2 = settingsStore w /\
  settings (importData data w).2 = settings w.
Proof.
  intros Hnone. unfold importData. rewrite Hnone.
  apply (bind_preserves
           (fun w' => settingsStore w' = settingsStore w /\ settings w' = settings w));
    [done|].
  intros _ w1 H1. apply bind_preserves.
  { apply for_each_preserves; [|done]. intros b w' Hw'.
    apply bind_preserves; [|done]. rewrite addBook_cases. simpl.
    by destruct (books w' !! _). }
  intros _ w2 H2. apply bind_preserves; [|done].
  apply for_each_preserves; [|done]. intros m w' Hw'.
  apply try_catch_preserves; [|done].
  apply bind_preserves; [|done]. unfold addMember. unfold_async.
  destruct (some _ _); [done|]. destruct (some _ _); [done|]. simpl.
  destruct (members w' !! _); [done|].
  by destruct (memberId_taken _ _).
Qed.

(** ** X8: what [importData] leaves in the stores *)

(** Whatever the document and the former contents, and whether the import
    resolves or is rejected half way: afterwards the issue store is empty
    (the issues of the document are not read); every stored book carries
    the data of a book of the document with [availableCopies] set to
    [totalCopies]; every stored member carries the name, phone, email and
    address of a member of the document; no two stored members share an
    email or a phone (later duplicates are skipped); and a document
    without settings leaves the settings as they were. *)
Theorem importData_leaves (data : Document) (w : World) :
  let w' := (importData data w).2 in
  issues w' = ∅ /\
  (forall k b, books w' !! k = Some b ->
     exists b0, b0 ∈ default [] (doc_books data) /\
                Book.to_data b = restock (Book.to_data b0)) /\
  (forall k m, members w' !! k = Some m ->
     exists m0, m0 ∈ default [] (doc_members data) /\
                Member.to_data m = Member.to_data m0) /\
  contacts_unique w' /\
  (doc_settings data = None ->
   settingsStore w' = settingsStore w /\ settings w' = settings w).
Proof.
  intros w'. destruct (importData_drawn_from data w) as (Hi & Hb & Hm).
  split; [exact Hi|]. split; [exact Hb|]. split; [exact Hm|].
  split; [apply importData_contacts_unique|apply importData_without_settings].
Qed.

Lemma importData_leaves_witness :
  let data := mkDocument (Some []) (Some [Member.mk "a" "LIB1" "Ada" "1" "x@y" None 0 0;
                                         Member.mk "b" "LIB2" "Bob" "2" "x@y" None 0 0])
                         (Some (default [] (doc_issues (exported lent_world)))) None in
  let w' := (importData data lent_world).2 in
  issues w' = ∅ /\
  Member.name <$> (map_to_list (members w')).*2 = ["Ada"] /\
  settingsStore w' = settingsStore lent_world.
Proof.
  intros data w'.
  destruct (importData_leaves data lent_world) as (Hi & _ & _ & _ & Hs).
  split; [exact Hi|]. split; [vm_compute; reflexivity|].
  apply (Hs eq_refl).
Defined.

(** ** X9: deleting a book *)

(** [deleteBook] always resolves: it removes the book with that id, if
    there is one, and touches nothing else - an unknown id is no error and
    the issues that refer to the book stay.  Afterwards [issueBook] for the
    id is rejected with 'Book not found', and [returnBook] on an issue of
    the deleted book whose status is not "returned" writes the issue record
    but never settles. *)
Theorem deleteBook_leaves_loans_behind (id : string) (w : World) :
  exists w',
    deleteBook id w = (Resolved tt, w') /\
    books w' !! id = None /\
    (forall k, k <> id -> books w' !! k = books w !! k) /\
    issues w' = issues w /\ members w' = members w /\
    (books w !! id = None -> w' = w) /\
    (forall issueData, Issue.d_bookId issueData = id ->
       issueBook issueData w' = (Rejected BookNotFound, w')) /\
    (forall issueId issue,
       issues w !! issueId = Some issue -> Issue.bookId issue = id ->
       Issue.status issue <> returned ->
       exists w'',
         returnBook issueId w' = (Unsettled, w'') /\
         (exists closed, issues w'' !! Issue.id issue = Some closed /\
                         is_Some (Issue.returnDate closed)) /\
         books w'' = books w').
Proof.
  eexists. split; [reflexivity|]. simpl.
  split; [apply lookup_delete_eq|].
  split; [by intros k Hk; apply lookup_delete_ne|].
  do 2 (split; [done|]). split; [|split].
  - intros Hnone. unfold set_books. rewrite delete_id by done. by destruct w.
  - intros issueData <-. unfold issueBook. unfold_async. simpl.
    by rewrite lookup_delete_eq.
  - intros issueId issue Hlook <- Hst.
    rewrite (returnBook_dangling issueId _ issue); [|done|done|simpl; apply lookup_delete_eq].
    eexists. split; [reflexivity|]. simpl. split; [|done].
    eexists. split; [apply lookup_insert_eq|]. simpl. eauto.
Qed.

Lemma deleteBook_leaves_loans_behind_witness :
  exists w' w'',
    deleteBook "id-2" lent_world = (Resolved tt, w') /\
    issueBook demo_issue w' = (Rejected BookNotFound, w') /\
    returnBook "id-10" w' = (Unsettled, w'') /\
    deleteBook "nothing" lent_world = (Resolved tt, lent_world).
Proof.
  destruct (deleteBook_leaves_loans_behind "id-2" lent_world)
    as (w' & Hrun & _ & _ & _ & _ & _ & Hissue & Hreturn).
  destruct (Hreturn "id-10"
              (Issue.mk "id-10" "id-2" "id-5" "Dune" "Ada" 7776000000 8985600000
                 None issued 9504000000 10368000000))
    as (w'' & Hret & _); [vm_compute; reflexivity|reflexivity|discriminate|].
  exists w', w''. split; [exact Hrun|]. split; [by apply Hissue|].
  split; [exact Hret|].
  destruct (deleteBook_leaves_loans_behind "nothing" lent_world)
    as (w0 & Hrun0 & _ & _ & _ & _ & Hsame & _).
  rewrite Hrun0. f_equal. apply Hsame. vm_compute. reflexivity.
Defined.

(** ** X10: the books offered for issuing *)

(** [getAvailableBooks] only reads: it lists exactly the stored books with
    [availableCopies > 0].  In a store whose books are filed under their
    ids, [issueBook] for a book id that the list does not offer is
    rejected - the book is unknown, the member is unknown or no copy is
    available - and changes nothing. *)
Theorem getAvailableBooks_offers_what_can_be_issued (w : World) :
  exists offered,
    getAvailableBooks w = (Resolved offered, w) /\
    (forall b, b ∈ offered <->
               exists k, books w !! k = Some b /\ 0 < Book.availableCopies b) /\
    (books_keyed w ->
     forall issueData,
       (forall b, b ∈ offered -> Book.id b <> Issue.d_bookId issueData) ->
       exists e, issueBook issueData w = (Rejected e, w) /\
                 (e = BookNotFound \/ e = MemberNotFound \/ e = NoCopiesAvailable)).
Proof.
  eexists. split; [reflexivity|]. split.
  - intros b. rewrite list_elem_of_filter, elem_of_values.
    split; [intros [Hpos [k Hk]]|intros (k & Hk & Hpos)]; eauto.
  - intros Hkeyed issueData Hnot. unfold issueBook. unfold_async. simpl.
    destruct (books w !! Issue.d_bookId issueData) as [book|] eqn:Hb; [|eauto].
    destruct (members w !! _); [|eauto].
    destruct (Z.leb_spec (Book.availableCopies book) 0) as [?|Hpos]; [eauto 6|].
    exfalso. apply (Hnot book); [|exact (Hkeyed _ _ Hb)].
    apply list_elem_of_filter. split; [done|]. apply elem_of_values. eauto.
Qed.

Lemma getAvailableBooks_offers_what_can_be_issued_witness :
  getAvailableBooks lent_world = (Resolved [], lent_world) /\
  exists e, issueBook demo_issue lent_world = (Rejected e, lent_world) /\
            (e = BookNotFound \/ e = MemberNotFound \/ e = NoCopiesAvailable).
Proof.
  destruct (getAvailableBooks_offers_what_can_be_issued lent_world)
    as (offered & Hrun & _ & Hissue).
  vm_compute in Hrun. injection Hrun as <-.
  split; [vm_compute; reflexivity|].
  apply Hissue; [compute_done|]. intros b Hb. by apply elem_of_nil in Hb.
Defined.

(** ** Substrings and search *)

Lemma startsWith_spec s needle :
  startsWith s needle = true <-> exists post, s = needle +:+ post.
Proof.
  revert s. induction needle as [|c needle IH]; intros s; simpl.
  - split; [eauto|done].
  - destruct s as [|d s]; simpl.
    + split; [done|]. by intros [post ?].
    + rewrite andb_true_iff, bool_decide_eq_true, IH. split.
      * intros [-> [post ->]]. eauto.
      * intros [post Heq]. injection Heq as -> ->. eauto.
Qed.

Lemma includes_spec s needle :
  includes s needle = true <-> exists pre post, s = pre +:+ needle +:+ post.
Proof.
  induction s as [|d s IH]; simpl.
  - rewrite orb_false_r, startsWith_spec. split.
    + intros [post ->]. by exists "", post.
    + intros (pre & post & Heq). destruct pre; [by exists post|done].
  - rewrite orb_true_iff, IH, startsWith_spec. split.
    + intros [[post ->]|(pre & post & ->)].
      * by exists "", post.
      * by exists (String d pre), post.
    + intros (pre & post & Heq). destruct pre as [|c pre]; simpl in Heq.
      * left. by exists post.
      * right. injection Heq as -> ->. eauto.
Qed.

Lemma includes_itself s : includes s s = true.
Proof.
  apply includes_spec. exists "", "". change (s = s +:+ "").
  induction s as [|c s IH]; [done|].
  change (String c s = String c (s +:+ "")). by f_equal.
Qed.

Lemma list_filter_sublist {A} (f : A -> bool) (l : list A) : sublist (List.filter f l) l.
Proof.
  induction l as [|x l IH]; simpl; [constructor|].
  destruct (f x); by constructor.
Qed.

Lemma elem_of_list_filter {A} (f : A -> bool) (l : list A) x :
  x ∈ List.filter f l <-> x ∈ l /\ f x = true.
Proof. rewrite !list_elem_of_In. apply filter_In. Qed.

Lemma isbn_includes_spec lower isbn term :
  isbn_includes lower isbn term = true <->
  exists i, isbn = Some i /\ i <> "" /\ includes (lower i) term = true.
Proof.
  unfold isbn_includes. destruct isbn as [i|].
  - rewrite andb_true_iff, negb_true_iff, bool_decide_eq_false. split.
    + intros [Hne Hin]. by exists i.
    + intros (i' & Heq & Hne & Hin). by injection Heq as ->.
  - split; [done|]. by intros (i & ? & _).
Qed.

(** ** X11: what [searchBooks] finds *)

(** [searchBooks] only reads, and what it resolves with is a selection of
    the stored books in their order.  A blank query gives all books.
    Otherwise a stored book is found exactly when its title, author or
    category, or its non-empty ISBN, contains the query, both put in lower
    case. *)
Theorem searchBooks_finds_what_holds_the_query
    (toLowerCase trim : string -> string) (query : string) (w : World) :
  exists found,
    searchBooks toLowerCase trim query w = (Resolved found, w) /\
    sublist found (map_to_list (books w)).*2 /\
    (trim query = "" -> found = (map_to_list (books w)).*2) /\
    (trim query <> "" ->
     forall book,
       book ∈ found <->
       (exists k, books w !! k = Some book) /\
       (holds toLowerCase query (Book.title book) \/
        holds toLowerCase query (Book.author book) \/
        holds toLowerCase query (Book.category book) \/
        exists isbn, Book.isbn book = Some isbn /\ isbn <> "" /\
                     holds toLowerCase query isbn)).
Proof.
  unfold searchBooks. unfold_async. case_bool_decide as Hblank.
  - eexists. split; [reflexivity|]. split; [done|]. split; [done|]. by intros ?.
  - eexists. split; [reflexivity|]. split; [apply list_filter_sublist|].
    split; [by intros ?|]. intros _ book.
    rewrite elem_of_list_filter, elem_of_values. unfold book_matches, holds.
    rewrite !orb_true_iff, isbn_includes_spec, !includes_spec.
    setoid_rewrite includes_spec. tauto.
Qed.

Lemma searchBooks_finds_what_holds_the_query_witness :
  exists found,
    searchBooks (fun s => s) (fun s => s) "une" demo_world = (Resolved found, demo_world) /\
    Book.title <$> found = ["Dune"].
Proof.
  destruct (searchBooks_finds_what_holds_the_query (fun s => s) (fun s => s) "une"
              demo_world) as (found & Hrun & _ & _ & Hfound).
  exists found. split; [exact Hrun|].
  specialize (Hfound ltac:(discriminate)).
  vm_compute in Hrun. injection Hrun as <-. reflexivity.
Defined.

(** ** X12: what [searchMembers] finds *)

(** [searchMembers] only reads and resolves with a selection of the stored
    members in their order; a blank query gives all members.  Otherwise a
    member is found exactly when the name, member code or email, put in
    lower case, or the phone as it is stored, contains the query put in
    lower case. *)
Theorem searchMembers_finds_what_holds_the_query
    (toLowerCase trim : string -> string) (query : string) (w : World) :
  exists found,
    searchMembers toLowerCase trim query w = (Resolved found, w) /\
    sublist found (map_to_list (members w)).*2 /\
    (trim query = "" -> found = (map_to_list (members w)).*2) /\
    (trim query <> "" ->
     forall member,
       member ∈ found <->
       (exists k, members w !! k = Some member) /\
       (holds toLowerCase query (Member.name member) \/
        holds toLowerCase query (Member.memberId member) \/
        holds toLowerCase query (Member.email member) \/
        exists pre post, Member.phone member = pre +:+ toLowerCase query +:+ post)).
Proof.
  unfold searchMembers. unfold_async. case_bool_decide as Hblank.
  - eexists. split; [reflexivity|]. split; [done|]. split; [done|]. by intros ?.
  - eexists. split; [reflexivity|]. split; [apply list_filter_sublist|].
    split; [by intros ?|]. intros _ member.
    rewrite elem_of_list_filter, elem_of_values. unfold member_matches, holds.
    rewrite !orb_true_iff, !includes_spec. tauto.
Qed.

Lemma searchMembers_finds_what_holds_the_query_witness :
  exists found,
    searchMembers (fun s => s) (fun s => s) "0101" two_member_world
      = (Resolved found, two_member_world) /\
    Member.name <$> found = ["Bob"].
Proof.
  destruct (searchMembers_finds_what_holds_the_query (fun s => s) (fun s => s) "0101"
              two_member_world) as (found & Hrun & _ & _ & Hfound).
  exists found. split; [exact Hrun|].
  specialize (Hfound ltac:(discriminate)).
  vm_compute in Hrun. injection Hrun as <-. reflexivity.
Defined.

(** ** The filters of the book page *)

Lemma list_filter_split {A} (f g : A -> bool) (l : list A) :
  Forall (fun x => f x = negb (g x)) l ->
  List.filter f l ++ List.filter g l ≡ₚ l.
Proof.
  induction 1 as [|x l Hx Hl IH]; simpl; [done|].
  rewrite Hx. destruct (g x); simpl.
  - by rewrite <- Permutation_middle, IH.
  - by rewrite IH.
Qed.

Lemma list_filter_Forall {A} (P : A -> Prop) (f : A -> bool) (l : list A) :
  Forall P l -> Forall P (List.filter f l).
Proof.
  induction 1 as [|x l Hx Hl IH]; simpl; [done|].
  destruct (f x); [by constructor|done].
Qed.

(** ** X13: Available and Unavailable split the list of the book page *)

(** Whatever the search text and the category filter, the list shown by the
    book page is a selection of the books in their order; and when no book
    has a negative [availableCopies], the lists shown under "available" and
    under "unavailable" together are the list shown under "all": each book
    is in exactly one of them. *)
Theorem filteredBooks_available_or_unavailable
    (toLowerCase trim : string -> string) (books : list Book.t)
    (searchQuery categoryFilter availabilityFilter : string) :
  sublist (filteredBooks toLowerCase trim books searchQuery categoryFilter
             availabilityFilter) books /\
  (Forall (fun b => 0 <= Book.availableCopies b) books ->
   filteredBooks toLowerCase trim books searchQuery categoryFilter "available" ++
   filteredBooks toLowerCase trim books searchQuery categoryFilter "unavailable"
   ≡ₚ filteredBooks toLowerCase trim books searchQuery categoryFilter "all").
Proof.
  unfold filteredBooks. split.
  - repeat case_bool_decide;
      repeat (etrans; [apply list_filter_sublist|]); done.
  - intros Hnonneg.
    set (base := if bool_decide (categoryFilter = "all") then _ else _).
    assert (Hbase : Forall (fun b => 0 <= Book.availableCopies b) base).
    { unfold base. repeat case_bool_decide; repeat apply list_filter_Forall; done. }
    rewrite (bool_decide_eq_false_2 ("available" = "all")) by done.
    rewrite (bool_decide_eq_false_2 ("unavailable" = "all")) by done.
    rewrite (bool_decide_eq_true_2 ("all" = "all")) by done.
    apply list_filter_split.
    eapply Forall_impl; [exact Hbase|]. intros b Hb. unfold availability_matches.
    rewrite (bool_decide_eq_true_2 ("available" = "available")) by done.
    rewrite (bool_decide_eq_false_2 ("unavailable" = "available")) by done.
    rewrite (bool_decide_eq_true_2 ("unavailable" = "unavailable")) by done.
    repeat case_bool_decide; simpl in *; first [done | exfalso; lia].
Qed.

Lemma filteredBooks_available_or_unavailable_witness :
  let books := (map_to_list (books lent_world)).*2 ++ (map_to_list (books shelf_world)).*2 in
  Book.title <$> filteredBooks (fun s => s) (fun s => s) books "" "all" "available" = ["SICP"] /\
  Book.title <$> filteredBooks (fun s => s) (fun s => s) books "" "all" "unavailable" = ["Dune"] /\
  filteredBooks (fun s => s) (fun s => s) books "" "all" "available" ++
  filteredBooks (fun s => s) (fun s => s) books "" "all" "unavailable"
  ≡ₚ filteredBooks (fun s => s) (fun s => s) books "" "all" "all".
Proof.
  intros books. split; [vm_compute; reflexivity|]. split; [vm_compute; reflexivity|].
  apply (filteredBooks_available_or_unavailable (fun s => s) (fun s => s) books "" "all" "all").
  compute_done.
Defined.

(** ** X14: the page's search shows nothing the wrapper's search would miss *)

(** For the same search text, every book the book page shows, under any
    category and availability filter, is among the books [searchBooks]
    resolves with. *)
Theorem filteredBooks_within_searchBooks
    (toLowerCase trim : string -> string) (w : World)
    (searchQuery categoryFilter availabilityFilter : string) :
  exists found,
    searchBooks toLowerCase trim searchQuery w = (Resolved found, w) /\
    forall book,
      book ∈ filteredBooks toLowerCase trim (map_to_list (books w)).*2
               searchQuery categoryFilter availabilityFilter ->
      book ∈ found.
Proof.
  assert (Hsearch : forall book,
            book ∈ filteredBooks toLowerCase trim (map_to_list (books w)).*2
                     searchQuery categoryFilter availabilityFilter ->
            book ∈ (if bool_decide (trim searchQuery = "") then (map_to_list (books w)).*2
                    else List.filter (page_matches toLowerCase (toLowerCase searchQuery))
                           (map_to_list (books w)).*2)).
  { assert (Hstage : forall (c : bool) f (l : list Book.t) x,
              x ∈ (if c then l else List.filter f l) -> x ∈ l).
    { intros [] f l x; [done|]. rewrite elem_of_list_filter. by intros [? _]. }
    intros book. unfold filteredBooks. intros Hshown.
    by apply Hstage, Hstage in Hshown. }
  unfold searchBooks. unfold_async. case_bool_decide as Hblank.
  - eexists. split; [reflexivity|]. exact Hsearch.
  - eexists. split; [reflexivity|]. intros book Hshown.
    apply Hsearch, elem_of_list_filter in Hshown as [Hin Hmatch].
    apply elem_of_list_filter. split; [done|].
    unfold page_matches in Hmatch. unfold book_matches.
    repeat (apply orb_true_iff in Hmatch as [Hmatch|Hmatch]);
      rewrite Hmatch, ?orb_true_r; done.
Qed.

Lemma filteredBooks_within_searchBooks_witness :
  exists found,
    searchBooks (fun s => s) (fun s => s) "Fiction" demo_world = (Resolved found, demo_world) /\
    Book.title <$> found = ["Dune"] /\
    filteredBooks (fun s => s) (fun s => s) (map_to_list (books demo_world)).*2
      "Fiction" "all" "all" = [] /\
    forall book,
      book ∈ filteredBooks (fun s => s) (fun s => s) (map_to_list (books demo_world)).*2
               "Dune" "Fiction" "available" ->
      book ∈ (map_to_list (books demo_world)).*2.
Proof.
  eexists. split; [vm_compute; reflexivity|].
  split; [vm_compute; reflexivity|]. split; [vm_compute; reflexivity|].
  intros book Hshown.
  destruct (filteredBooks_within_searchBooks (fun s => s) (fun s => s) demo_world
              "Dune" "Fiction" "available") as (found & Hrun & Hwithin).
  apply Hwithin in Hshown.
  vm_compute in Hrun. injection Hrun as <-.
  vm_compute. exact Hshown.
Defined.

(** ** The form of the book page *)

Lemma formErrors_empty_iff trim currentYear formData :
  validateForm trim currentYear formData = true <->
  form_acceptable trim currentYear formData.
Proof.
  unfold validateForm, formErrors, form_acceptable.
  rewrite bool_decide_eq_true, map_size_empty_iff.
  destruct (decide (trim (f_title formData) = "")) as [Ht|Ht];
    [rewrite (bool_decide_eq_true_2 _ Ht)|rewrite (bool_decide_eq_false_2 _ Ht)];
  (destruct (decide (trim (f_author formData) = "")) as [Ha|Ha];
    [rewrite (bool_decide_eq_true_2 _ Ha)|rewrite (bool_decide_eq_false_2 _ Ha)]);
  (destruct (decide (f_category formData = "")) as [Hc|Hc];
    [rewrite (bool_decide_eq_true_2 _ Hc)|rewrite (bool_decide_eq_false_2 _ Hc)]);
  destruct (Z.ltb_spec (f_publicationYear formData) 1000);
  destruct (Z.ltb_spec currentYear (f_publicationYear formData));
  destruct (Z.ltb_spec (f_totalCopies formData) 1);
  destruct (Z.ltb_spec (f_availableCopies formData) 0);
  destruct (Z.ltb_spec (f_totalCopies formData) (f_availableCopies formData));
  cbn [orb];
  (split;
   [ intros Hempty;
     first [ by apply insert_non_empty in Hempty
           | repeat split; first [done | lia] ]
   | intros (? & ? & ? & ? & ? & ?);
     first [ done | exfalso; lia ] ]).
Qed.

(** ** X15: the forms [validateForm] accepts *)

(** [validateForm] returns true exactly for a form whose title and author
    are not blank, whose category is not empty, whose year lies between
    1000 and the current year, whose [totalCopies] is at least 1 and whose
    [availableCopies] lies between 0 and [totalCopies]. *)
Theorem validateForm_accepts_exactly (trim : string -> string) (currentYear : Z)
    (formData : BookForm) :
  validateForm trim currentYear formData = true <->
  trim (f_title formData) <> "" /\
  trim (f_author formData) <> "" /\
  f_category formData <> "" /\
  1000 <= f_publicationYear formData <= currentYear /\
  1 <= f_totalCopies formData /\
  0 <= f_availableCopies formData <= f_totalCopies formData.
Proof. exact (formErrors_empty_iff trim currentYear formData). Qed.

Lemma validateForm_accepts_exactly_witness :
  validateForm (fun s => s) 2026 (mkBookForm "Dune" "Frank Herbert" "Fiction" 1965 "" 3 2)
    = true /\
  validateForm (fun s => s) 2026 (mkBookForm "Dune" "Frank Herbert" "Fiction" 1965 "" 3 4)
    = false.
Proof.
  split.
  - apply (validateForm_accepts_exactly (fun s => s) 2026).
    simpl. repeat split; (discriminate || lia).
  - vm_compute. reflexivity.
Defined.

(** ** X16: a validated form keeps the book within its bounds *)

(** When [validateForm] accepts the form: [updateBook] with the values
    [handleEditBook] passes, for a book filed under its id, resolves and
    stores a book with [0 <= availableCopies <= totalCopies] and
    [totalCopies >= 1] under the same id and creation date; and [addBook]
    with the values [handleAddBook] passes stores, under a free id, a book
    with [availableCopies = totalCopies >= 1], whatever the form's
    [availableCopies]. *)
Theorem validated_form_keeps_bounds (trim : string -> string) (currentYear : Z)
    (formData : BookForm) (w : World) :
  validateForm trim currentYear formData = true ->
  (forall id book,
     books w !! id = Some book -> Book.id book = id ->
     exists updated w',
       updateBook id (form_updates trim formData) w = (Resolved updated, w') /\
       books w' !! id = Some updated /\
       book_ok updated /\ 1 <= Book.totalCopies updated /\
       Book.to_data updated = form_data trim formData /\
       Book.id updated = id /\ Book.createdAt updated = Book.createdAt book) /\
  (books w !! uuid (env w) (queries w) = None ->
   exists added w',
     addBook (form_data trim formData) w = (Resolved added, w') /\
     books w' !! Book.id added = Some added /\
     book_ok added /\
     Book.availableCopies added = f_totalCopies formData /\
     1 <= Book.totalCopies added).
Proof.
  intros Hvalid. apply formErrors_empty_iff in Hvalid
    as (_ & _ & _ & _ & Htotal & Havail).
  split.
  - intros id book Hlook Hid. unfold updateBook. unfold_async. rewrite Hlook.
    eexists _, _. split; [reflexivity|]. simpl. rewrite Hid.
    split; [apply lookup_insert_eq|]. unfold book_ok. simpl. done.
  - intros Hfresh. rewrite addBook_cases. simpl. rewrite Hfresh.
    eexists _, _. split; [reflexivity|]. simpl.
    split; [apply lookup_insert_eq|]. unfold book_ok. simpl.
    repeat split; (done || lia).
Qed.

Lemma validated_form_keeps_bounds_witness :
  let formData := mkBookForm "Dune" "Frank Herbert" "Fiction" 1965 "" 3 2 in
  (exists updated w',
     updateBook "id-2" (form_updates (fun s => s) formData) lent_world
       = (Resolved updated, w') /\
     book_ok updated) /\
  (exists added w',
     addBook (form_data (fun s => s) formData) lent_world = (Resolved added, w') /\
     Book.availableCopies added = 3).
Proof.
  intros formData.
  destruct (validated_form_keeps_bounds (fun s => s) 2026 formData lent_world)
    as [Hedit Hadd]; [vm_compute; reflexivity|].
  split.
  - destruct (Hedit "id-2" (Book.mk "id-2" "Dune" "Frank Herbert" "Fiction" 1965 None 1 0
                              2592000000 11232000000))
      as (updated & w' & Hrun & _ & Hok & _); [vm_compute; reflexivity|reflexivity|].
    eauto.
  - destruct Hadd as (added & w' & Hrun & _ & _ & Hav & _); [vm_compute; reflexivity|].
    eauto.
Defined.

(** ** Settings *)

(** ** X17: [loadSettings] adopts what is stored *)

(** [loadSettings] always resolves.  A stored settings record is never
    changed by it and becomes the cached one; only when nothing is stored
    are the cached settings saved.  Either way store and cache agree
    afterwards, books, members and issues are untouched, and a second
    [loadSettings] changes nothing. *)
Theorem loadSettings_adopts_stored (w : World) :
  exists w',
    loadSettings w = (Resolved tt, w') /\
    settingsStore w' = Some (settings w') /\
    (forall s, settingsStore w = Some s -> settingsStore w' = Some s /\ w' = 
       mkWorld (books w) (members w) (issues w) (Some s) s (env w) (queries w)) /\
    (settingsStore w = None ->
     settings w' = restamp (settings w) (now_of w)) /\
    books w' = books w /\ members w' = members w /\ issues w' = issues w /\
    loadSettings w' = (Resolved tt, w').
Proof.
  destruct (settingsStore w) as [s|] eqn:Hs.
  - exists (mkWorld (books w) (members w) (issues w) (Some s) s (env w) (queries w)).
    split; [unfold loadSettings; unfold_async; rewrite Hs; simpl; by rewrite Hs|].
    split; [done|]. split; [by intros s0 [= <-]|]. split; [done|].
    do 3 (split; [done|]). done.
  - exists (set_settings (restamp (settings w) (now_of w)) (tick w)).
    split; [unfold loadSettings; unfold_async; by rewrite Hs|].
    split; [done|]. split; [done|]. split; [done|].
    do 3 (split; [done|]). done.
Qed.

Lemma loadSettings_adopts_stored_witness :
  exists w',
    loadSettings (opened demo_env) = (Resolved tt, w') /\
    settingsStore w' = settingsStore (opened demo_env) /\
    LibrarySettings.maxBooksPerMember (settings w') = 3.
Proof.
  destruct (loadSettings_adopts_stored (opened demo_env))
    as (w' & Hrun & _ & Hkeep & _).
  destruct (Hkeep (LibrarySettings.mk "default" 14 light false 1 3 864000000))
    as [Hs Hw]; [vm_compute; reflexivity|].
  exists w'. split; [exact Hrun|].
  split; [rewrite Hs; vm_compute; reflexivity|]. rewrite Hw. reflexivity.
Defined.

(** ** X18: saved settings take effect at once *)

(** [saveSettings] always resolves, with a record under the id 'default'
    that a following [getSettings] returns.  When store and cache agree,
    each field is the supplied value or else the stored one.  From then on
    [issueBook] uses the saved limit: for a stored book with a copy
    available and a stored member who has at least [maxBooksPerMember]
    issues of status "issued", it is rejected with the limit in the
    message and changes nothing. *)
Theorem saveSettings_takes_effect (updates : LibrarySettings.updates) (w : World) :
  exists saved w',
    saveSettings updates w = (Resolved saved, w') /\
    getSettings w' = (Resolved (Some saved), w') /\
    settings w' = saved /\
    LibrarySettings.id saved = "default" /\
    saved = LibrarySettings.spread (settings w) updates (now_of w) /\
    (forall s, settingsStore w = Some s -> settings w = s ->
       LibrarySettings.maxBooksPerMember saved =
         default (LibrarySettings.maxBooksPerMember s)
                 (LibrarySettings.u_maxBooksPerMember updates) /\
       LibrarySettings.defaultLoanDuration saved =
         default (LibrarySettings.defaultLoanDuration s)
                 (LibrarySettings.u_defaultLoanDuration updates) /\
       LibrarySettings.finePerDay saved =
         default (LibrarySettings.finePerDay s) (LibrarySettings.u_finePerDay updates) /\
       LibrarySettings.theme saved =
         default (LibrarySettings.theme s) (LibrarySettings.u_theme updates) /\
       LibrarySettings.autoNotifications saved =
         default (LibrarySettings.autoNotifications s)
                 (LibrarySettings.u_autoNotifications updates)) /\
    (forall issueData book member,
       books w !! Issue.d_bookId issueData = Some book ->
       members w !! Issue.d_memberId issueData = Some member ->
       0 < Book.availableCopies book ->
       LibrarySettings.maxBooksPerMember saved
         <= Z.of_nat (length (active_issues (Issue.d_memberId issueData) w)) ->
       issueBook issueData w' =
         (Rejected (MemberLimitReached (LibrarySettings.maxBooksPerMember saved)), w')).
Proof.
  eexists _, _. split; [reflexivity|]. simpl.
  do 4 (split; [done|]). split.
  - by intros s _ <-.
  - intros issueData book member Hb Hm Hpos Hmax.
    unfold issueBook. unfold_async. simpl. rewrite Hb, Hm.
    destruct (Z.leb_spec (Book.availableCopies book) 0); [lia|].
    unfold active_issues in Hmax. simpl.
    destruct (Z.leb_spec
      (default (LibrarySettings.maxBooksPerMember (settings w))
               (LibrarySettings.u_maxBooksPerMember updates))
      (Z.of_nat (length (filter (is_active (Issue.d_memberId issueData))
                           (map_to_list (issues w)).*2)))); [done|lia].
Qed.

Lemma saveSettings_takes_effect_witness :
  exists saved w',
    saveSettings (LibrarySettings.mkUpdates None None None None (Some 1))
      (issueBook demo_issue shelf_world).2 = (Resolved saved, w') /\
    LibrarySettings.defaultLoanDuration saved = 14 /\
    issueBook demo_issue w' = (Rejected (MemberLimitReached 1), w').
Proof.
  destruct (saveSettings_takes_effect
              (LibrarySettings.mkUpdates None None None None (Some 1))
              (issueBook demo_issue shelf_world).2)
    as (saved & w' & Hrun & _ & _ & _ & Hsaved & _ & Hlimit).
  exists saved, w'. split; [exact Hrun|].
  split; [rewrite Hsaved; vm_compute; reflexivity|].
  replace 1 with (LibrarySettings.maxBooksPerMember saved)
    by (rewrite Hsaved; reflexivity).
  eapply Hlimit.
  - vm_compute. reflexivity.
  - vm_compute. reflexivity.
  - vm_compute. reflexivity.
  - rewrite Hsaved. vm_compute. discriminate.
Defined.

(** ** Members in whole sessions *)

Lemma updateBookAvailability_members bookId change w :
  members (updateBookAvailability bookId change w).2 = members w.
Proof. apply updateBookAvailability_issues. Qed.

Lemma issueBook_members issueData w : members (issueBook issueData w).2 = members w.
Proof.
  unfold issueBook. unfold_async. simpl.
  destruct (books w !! _) as [book|]; [|done].
  destruct (members w !! _) as [member|]; [|done].
  destruct (_ <=? 0); [done|].
  destruct (settingsStore w) as [s|]; [|done].
  destruct (_ <=? _); [done|]. simpl.
  destruct (issues w !! _); [done|].
  match goal with
  | |- context [updateBookAvailability ?b ?c ?w1] =>
      pose proof (updateBookAvailability_members b c w1) as Hupd;
      destruct (updateBookAvailability b c w1) as [[u|e|] w2]
  end; simpl in *; done.
Qed.

Lemma returnBook_members issueId w : members (returnBook issueId w).2 = members w.
Proof.
  unfold returnBook.
  destruct (issues w !! issueId) as [issue|]; [|done].
  case_bool_decide; [done|]. unfold_async. simpl.
  match goal with
  | |- context [updateBookAvailability ?b ?c ?w1] =>
      pose proof (updateBookAvailability_members b c w1) as Hupd;
      destruct (updateBookAvailability b c w1) as [[u|e|] w2]
  end; simpl in *; done.
Qed.

Lemma updateOverdueStatus_members w : members (updateOverdueStatus w).2 = members w.
Proof.
  unfold updateOverdueStatus.
  apply (bind_preserves (fun w' => members w' = members w)); [done|].
  intros allIssues w1 H1.
  apply (bind_preserves (fun w' => members w' = members w)); [done|].
  intros now w2 H2.
  apply (for_each_preserves (fun w' => members w' = members w)); [|done].
  intros issue w3 H3.
  apply (bind_preserves (fun w' => members w' = members w)); [|done].
  unfold updateIssue. by destruct (issues w3 !! _).
Qed.

Lemma addMember_codes_unique memberData w :
  codes_unique w -> codes_unique (addMember memberData w).2.
Proof.
  intros Hcodes. unfold addMember. unfold_async.
  destruct (some _ _); [done|]. destruct (some _ _); [done|]. simpl.
  destruct (members w !! _) eqn:Hfresh; [done|].
  destruct (memberId_taken _ _) eqn:Htaken; [done|].
  unfold codes_unique. simpl.
  rewrite (values_insert _ _ _ Hfresh), fmap_cons. simpl.
  apply NoDup_cons. split; [|done].
  intros Hin. apply list_elem_of_fmap in Hin as (m & Heq & Hm).
  unfold memberId_taken in Htaken.
  apply (some_false_inv _ _ m) in Htaken; [|done].
  simpl in Htaken. by rewrite bool_decide_eq_true_2 in Htaken.
Qed.

Lemma values_replace {A} (m : gmap string A) k x y :
  m !! k = Some y ->
  (map_to_list (<[k:=x]> m)).*2 ≡ₚ x :: (map_to_list (delete k m)).*2 /\
  (map_to_list m).*2 ≡ₚ y :: (map_to_list (delete k m)).*2.
Proof.
  intros Hk. split.
  - rewrite <- (insert_delete_eq m k x).
    apply values_insert, lookup_delete_eq.
  - by rewrite <- (map_to_list_delete m k y Hk).
Qed.

Lemma updateMember_codes_unique id updates w :
  members_keyed w -> codes_unique w -> codes_unique (updateMember id updates w).2.
Proof.
  intros Hkeyed Hcodes. unfold updateMember. unfold_async.
  destruct (members w !! id) as [existing|] eqn:Hlook; [|done].
  unfold codes_unique in *. simpl. rewrite (Hkeyed _ _ Hlook).
  destruct (values_replace (members w) id
              (Member.spread existing updates (clock (env w) (queries w))) existing Hlook)
    as [-> Hold].
  by rewrite Hold in Hcodes.
Qed.

Lemma deleteMember_codes_unique id w :
  codes_unique w -> codes_unique (deleteMember id w).2.
Proof.
  intros Hcodes. unfold codes_unique in *. simpl.
  destruct (members w !! id) as [existing|] eqn:Hlook.
  - destruct (values_replace (members w) id existing existing Hlook) as [_ Hold].
    rewrite Hold, fmap_cons in Hcodes. by apply NoDup_cons in Hcodes as [_ ?].
  - by rewrite delete_id.
Qed.

Lemma importData_codes_unique data w : codes_unique (importData data w).2.
Proof.
  unfold importData.
  apply bind_preserves.
  { unfold codes_unique. simpl. rewrite map_to_list_empty. apply NoDup_nil_2. }
  intros _ w1 H1. apply bind_preserves.
  { apply for_each_preserves; [|done]. intros b w' Hw'.
    apply bind_preserves; [|done].
    unfold codes_unique. by rewrite addBook_members. }
  intros _ w2 H2. apply bind_preserves.
  { apply for_each_preserves; [|done]. intros m w' Hw'.
    apply try_catch_preserves; [|done].
    apply bind_preserves; [|done]. by apply addMember_codes_unique. }
  intros _ w3 H3. destruct (doc_settings data); [|done].
  apply bind_preserves; done.
Qed.

Lemma exec_codes_unique w call :
  tidy w -> codes_unique w -> codes_unique (exec w call).
Proof.
  intros (_ & Hkeyed & _) Hcodes. destruct call; cbn [exec].
  - unfold codes_unique in *. by rewrite addBook_members.
  - unfold codes_unique in *. unfold updateBook. unfold_async.
    by destruct (books w !! _).
  - done.
  - by apply addMember_codes_unique.
  - by apply updateMember_codes_unique.
  - by apply deleteMember_codes_unique.
  - unfold codes_unique in *. by rewrite issueBook_members.
  - unfold codes_unique in *. by rewrite returnBook_members.
  - unfold codes_unique in *. by rewrite updateOverdueStatus_members.
  - done.
  - unfold codes_unique in *. unfold saveSettings. unfold_async.
    by destruct (settingsStore w).
  - done.
  - apply importData_codes_unique.
  - unfold codes_unique. simpl. rewrite map_to_list_empty. apply NoDup_nil_2.
Qed.

(** ** X19: member codes stay unique *)

(** Whatever calls are made on the wrapper after the database has been
    opened, no two stored members share a member code: [addMember] fails on
    a code already stored, [updateMember] never changes a code, and the
    other calls add no member. *)
Theorem member_codes_stay_unique (calls : list Call) (e : Env) :
  NoDup (Member.memberId <$> (map_to_list (members (session calls (opened e)))).*2).
Proof.
  assert (Hstart : tidy (opened e) /\ codes_unique (opened e)).
  { split; [apply opened_tidy|]. unfold codes_unique. simpl.
    rewrite map_to_list_empty. apply NoDup_nil_2. }
  revert Hstart. generalize (opened e).
  induction calls as [|c calls IH]; intros w [Ht Hc]; [done|].
  simpl. apply IH. split; [by apply exec_tidy|by apply exec_codes_unique].
Qed.

(** ** X20: deleting a member *)

(** [deleteMember] always resolves: it removes the member with that id, if
    there is one, and touches nothing else, so the member's issues stay.
    Afterwards [issueBook] for that member and a stored book is rejected
    with 'Member not found', while [returnBook] does for every issue what
    it would have done before. *)
Theorem deleteMember_leaves_loans_behind (id : string) (w : World) :
  exists w',
    deleteMember id w = (Resolved tt, w') /\
    members w' !! id = None /\
    (forall k, k <> id -> members w' !! k = members w !! k) /\
    books w' = books w /\ issues w' = issues w /\
    (forall issueData book,
       Issue.d_memberId issueData = id ->
       books w !! Issue.d_bookId issueData = Some book ->
       issueBook issueData w' = (Rejected MemberNotFound, w')) /\
    (forall issueId,
       (returnBook issueId w').1 = (returnBook issueId w).1 /\
       issues (returnBook issueId w').2 = issues (returnBook issueId w).2 /\
       books (returnBook issueId w').2 = books (returnBook issueId w).2).
Proof.
  eexists. split; [reflexivity|]. simpl.
  split; [apply lookup_delete_eq|].
  split; [by intros k Hk; apply lookup_delete_ne|].
  do 2 (split; [done|]). split.
  - intros issueData book <- Hb. unfold issueBook. unfold_async. simpl.
    by rewrite Hb, lookup_delete_eq.
  - intros issueId. unfold returnBook. simpl.
    destruct (issues w !! issueId) as [issue|]; [|done].
    case_bool_decide; [done|]. unfold_async. simpl.
    destruct (books w !! Issue.bookId issue) as [book|] eqn:Hb.
    + rewrite !(updateBookAvailability_found _ _ _ book) by (simpl; exact Hb). done.
    + rewrite !updateBookAvailability_missing by (simpl; exact Hb). done.
Qed.

Lemma deleteMember_leaves_loans_behind_witness :
  exists w' closed w'',
    deleteMember "id-5" lent_world = (Resolved tt, w') /\
    issueBook demo_issue w' = (Rejected MemberNotFound, w') /\
    returnBook "id-10" w' = (Resolved closed, w'').
Proof.
  destruct (deleteMember_leaves_loans_behind "id-5" lent_world)
    as (w' & Hrun & _ & _ & _ & _ & Hissue & Hreturn).
  destruct (Hreturn "id-10") as (Hout & _).
  vm_compute in Hrun. injection Hrun as <-.
  eexists _, _, _. split; [reflexivity|].
  split; [eapply Hissue; [reflexivity|vm_compute; reflexivity]|].
  vm_compute. reflexivity.
Defined.
